(** * pyopt: a shallow embedding of [pyopt.py]

    The module exposes Python functions as command-line commands.  This file
    embeds the wrapper classes ([FunctionWrapper], [ArgsFunction],
    [KwargsFunction], [MixedFunction]), the standard-library [getopt] that
    [MixedFunction.parse] delegates to, and the [Exposer] registry with its
    dispatch ([parse_args]) and top-level [run].

    Python exceptions are the constructors of [exn]; a fallible computation
    returns a [result].  Output written with [print] is threaded as a list of
    printed strings (one per [print] call). *)

From Stdlib Require Import List String Ascii ZArith Arith Lia Bool.
From Stdlib Require Import Numbers.DecimalString.
Import ListNotations.
Open Scope list_scope.
Open Scope string_scope.
Open Scope nat_scope.

(** ** Python values, exceptions and results *)

(** The runtime values produced by the casters ([str], [int], [bool]). *)
Inductive value :=
| VStr (s : string)
| VInt (z : Z)
| VBool (b : bool).

(** The messages of the [PyoptError]s raised by the module, one constructor per
    format string of the source. *)
Inductive pyopt_msg :=
| MTooFew (needed got : nat)          (* "%d arguments required, got only %d." *)
| MTooMany (got most : nat)           (* "Got %d arguments and expected at most %d." *)
| MIllegalBool (short : string)       (* "Illegal option '%s' given as boolean." *)
| MMustStart                          (* "Options must start with '-' or '--'." *)
| MIllegalOption (name : string)      (* "Illegal option '%s' given." *)
| MRequired (names : list string)     (* "The following options are required: %s." *)
| MUnknownFunction (name : string).   (* "Unkown function '%s'." *)

(** Python exceptions that the code raises or lets escape.  [PrintHelp] carries
    its argument, [None] being Python's [None]. *)
Inductive exn :=
| PyoptError (m : pyopt_msg)
| PrintHelp (payload : option string)
| ValueError (msg : string)
| KeyError (key : string)
| IndexError
| UnboundLocalError (var : string)
| GetoptError (msg opt : string)
| NotImplementedError (msg : string).

Inductive result (A : Type) :=
| Ok (a : A)
| Err (e : exn).
Arguments Ok {A} a.
Arguments Err {A} e.

Definition bind {A B} (m : result A) (k : A -> result B) : result B :=
  match m with
  | Ok a => k a
  | Err e => Err e
  end.

Notation "x <- m ;; k" := (bind m (fun x => k))
  (at level 61, m at next level, right associativity).

(** ** String helpers with Python semantics *)

Definition str_eqb := String.eqb.

(** [s.startswith(p)] *)
Definition startswith (s p : string) : bool := String.prefix p s.

(** [s[k:]] *)
Definition drop (k : nat) (s : string) : string :=
  substring k (String.length s - k) s.

(** [s[k]] for an index known to be in range (a one-character string). *)
Definition char_at (k : nat) (s : string) : string := substring k 1 s.

(** [name[0]]: the short flag of a parameter name.  Parameter names are Python
    identifiers, hence non-empty. *)
Definition first_char (name : string) : string := substring 0 1 name.

Definition str1 (c : ascii) : string := String c EmptyString.

(** [x in l] for a list of strings. *)
Definition mem (x : string) (l : list string) : bool := existsb (str_eqb x) l.

(** [str.isspace] on one character (ASCII and Latin-1 range). *)
Definition is_space (c : ascii) : bool :=
  let n := nat_of_ascii c in
  ((9 <=? n) && (n <=? 13)) || ((28 <=? n) && (n <=? 32)) || (n =? 133) || (n =? 160).

Fixpoint lstrip_chars (l : list ascii) : list ascii :=
  match l with
  | c :: r => if is_space c then lstrip_chars r else l
  | [] => []
  end.

(** [s.strip()] *)
Definition strip (s : string) : string :=
  string_of_list_ascii
    (rev (lstrip_chars (rev (lstrip_chars (list_ascii_of_string s))))).

(** Line boundaries of [str.splitlines] in the 8-bit range. *)
Definition is_line_break (c : ascii) : bool :=
  let n := nat_of_ascii c in
  ((10 <=? n) && (n <=? 13)) || ((28 <=? n) && (n <=? 30)) || (n =? 133).

Fixpoint splitlines_aux (cur : list ascii) (l : list ascii) : list string :=
  match l with
  | [] => match cur with [] => [] | _ => [string_of_list_ascii (rev cur)] end
  | c :: r =>
      if is_line_break c then
        let line := string_of_list_ascii (rev cur) in
        if (nat_of_ascii c =? 13) then
          match r with
          | c' :: r' => if nat_of_ascii c' =? 10 then line :: splitlines_aux [] r'
                        else line :: splitlines_aux [] r
          | [] => [line]
          end
        else line :: splitlines_aux [] r
      else splitlines_aux (c :: cur) r
  end.

(** [s.splitlines()] *)
Definition splitlines (s : string) : list string :=
  splitlines_aux [] (list_ascii_of_string s).

(** [l.append(x)] *)
Definition py_append {A} (l : list A) (x : A) : list A := (l ++ [x])%list.

(** [sep.join(l)] *)
Definition join (sep : string) (l : list string) : string := String.concat sep l.

(** [str(n)] for a natural number. *)
Definition nat_str (n : nat) : string := NilEmpty.string_of_uint (Nat.to_uint n).

(** ** Python dicts: insertion-ordered association lists *)

Definition dict (A : Type) := list (string * A).

Fixpoint dict_get {A} (k : string) (d : dict A) : option A :=
  match d with
  | [] => None
  | (k', v) :: r => if str_eqb k k' then Some v else dict_get k r
  end.

Definition dict_mem {A} (k : string) (d : dict A) : bool :=
  match dict_get k d with Some _ => true | None => false end.

(** [d[k] = v]: an existing key keeps its position, a new key is appended. *)
Fixpoint dict_set {A} (k : string) (v : A) (d : dict A) : dict A :=
  match d with
  | [] => [(k, v)]
  | (k', v') :: r => if str_eqb k k' then (k', v) :: r else (k', v') :: dict_set k v r
  end.

(** ** Casters

    A parameter's caster is its annotation, or [str] when it has none.  [bool]
    is compared by identity in the source ([casts[arg] is bool],
    [val_type == bool]); [CFun] is any other callable annotation. *)
Inductive caster :=
| CStr
| CInt
| CBool
| CFun (f : string -> result value).

Definition is_bool_caster (c : caster) : bool :=
  match c with CBool => true | _ => false end.

Definition digit_val (c : ascii) : option Z :=
  let n := nat_of_ascii c in
  if (48 <=? n) && (n <=? 57) then Some (Z.of_nat (n - 48)) else None.

(** Decimal digits with single underscores between digits, as [int()] reads
    them; [last_digit] records whether the previous character was a digit. *)
Fixpoint int_digits (l : list ascii) (acc : Z) (last_digit : bool) : option Z :=
  match l with
  | [] => if last_digit then Some acc else None
  | c :: r =>
      match digit_val c with
      | Some d => int_digits r (acc * 10 + d)%Z true
      | None =>
          if (nat_of_ascii c =? 95) && last_digit then int_digits r acc false
          else None
      end
  end.

Definition int_literal (l : list ascii) : option Z :=
  match l with
  | c :: r =>
      if nat_of_ascii c =? 43 then int_digits r 0 false
      else if nat_of_ascii c =? 45 then option_map Z.opp (int_digits r 0 false)
      else int_digits l 0 false
  | [] => None
  end.

(** [int(s)] on a string, base 10.  (The quoting of [repr(s)] in the message is
    kept to plain single quotes.) *)
Definition py_int (s : string) : result value :=
  match int_literal (list_ascii_of_string (strip s)) with
  | Some z => Ok (VInt z)
  | None => Err (ValueError ("invalid literal for int() with base 10: '" ++ s ++ "'"))
  end.

(** [caster(raw)] *)
Definition apply_cast (c : caster) (raw : string) : result value :=
  match c with
  | CStr => Ok (VStr raw)
  | CInt => py_int raw
  | CBool => Ok (VBool (negb (str_eqb raw "")))
  | CFun f => f raw
  end.

(** ** [FunctionWrapper]

    The inspected function: its name, its positional parameters with their
    annotations, the number of trailing parameters with defaults
    ([len(__defaults__)]) and its docstring. *)
Record pyfunc := mk_pyfunc {
  fn_name : string;
  fn_params : list (string * option caster);
  fn_defaults : nat;
  fn_doc : option string
}.

Record wrapper := mk_wrapper {
  function : pyfunc;
  arg_names : list string;
  w_name : string;
  required : list string;
  (** [set(arg_names) - set(required)], listed in declaration order; its
      iteration order is only used by the usage rendering. *)
  optional : list string;
  booleans : list string;
  defaults_count : nat;
  needed_args : nat;
  casts : dict caster
}.

(** [casts[name]] *)
Definition cast_of (w : wrapper) (name : string) : result caster :=
  match dict_get name (casts w) with
  | Some c => Ok c
  | None => Err (KeyError name)
  end.

(** [FunctionWrapper.__init__] *)
Definition FunctionWrapper (f : pyfunc) : wrapper :=
  let arg_names := map fst (fn_params f) in
  let defaults_count := fn_defaults f in
  let not_default_count := List.length arg_names - defaults_count in
  let not_defaulted := firstn not_default_count arg_names in
  let casts := map (fun '(n, a) => (n, match a with Some c => c | None => CStr end))
                   (fn_params f) in
  let booleans := filter (fun a => match dict_get a casts with
                                   | Some c => is_bool_caster c
                                   | None => false end) arg_names in
  let required := filter (fun a => negb (mem a booleans)) not_defaulted in
  {| function := f;
     arg_names := arg_names;
     w_name := fn_name f;
     required := required;
     optional := filter (fun a => negb (mem a required)) arg_names;
     booleans := booleans;
     defaults_count := defaults_count;
     needed_args := List.length arg_names - defaults_count;
     casts := casts |}.

(** ** [ArgsFunction.parse] *)

(** Casting [(name, raw)] pairs in order: [self.casts[name](raw)]. *)
Fixpoint cast_each (w : wrapper) (l : list (string * string)) : result (list value) :=
  match l with
  | [] => Ok []
  | (name, raw) :: r =>
      c <- cast_of w name ;;
      v <- apply_cast c raw ;;
      vs <- cast_each w r ;;
      Ok (v :: vs)
  end.

Definition args_parse (w : wrapper) (raw_args : list string)
  : result (list value * dict value) :=
  if List.length raw_args <? needed_args w then
    Err (PyoptError (MTooFew (needed_args w) (List.length raw_args)))
  else if List.length (arg_names w) <? List.length raw_args then
    Err (PyoptError (MTooMany (List.length raw_args) (List.length (arg_names w))))
  else
    (* [zip(raw_args, self.arg_names)], pairs stored as (name, raw) *)
    args <- cast_each w (combine (arg_names w) raw_args) ;;
    Ok (args, []).

(** ** [KwargsFunction.parse] *)

(** [{name[0]: name for name in self.arg_names}]: a later name with the same
    first letter overwrites the value of an earlier one. *)
Definition short_to_name (w : wrapper) : dict string :=
  fold_left (fun d name => dict_set (first_char name) name d) (arg_names w) [].

(** The outcome of "find out the name of the argument": either a name to bind,
    or a boolean cluster already applied to [args_dict]. *)
Inductive resolved :=
| RName (name : string)
| RCluster (args_dict : dict value) (name : option string).

(** [for short in argument[1:]: ...]; [name] is the Python local variable. *)
Fixpoint kw_cluster (w : wrapper) (stn : dict string) (args_dict : dict value)
    (name : option string) (shorts : list ascii) : result (dict value * option string) :=
  match shorts with
  | [] => Ok (args_dict, name)
  | c :: r =>
      match dict_get (str1 c) stn with
      | None => Err (KeyError (str1 c))
      | Some n =>
          if negb (mem n (booleans w)) then Err (PyoptError (MIllegalBool (str1 c)))
          else kw_cluster w stn (dict_set n (VBool true) args_dict) (Some n) r
      end
  end.

Definition kw_resolve (w : wrapper) (stn : dict string) (args_dict : dict value)
    (name : option string) (argument : string) : result resolved :=
  if startswith argument "--" then Ok (RName (drop 2 argument))
  else if startswith argument "-" then
    if String.length argument =? 2 then
      match dict_get (char_at 1 argument) stn with
      | Some n => Ok (RName n)
      | None => Err (KeyError (char_at 1 argument))
      end
    else if 2 <? String.length argument then
      r <- kw_cluster w stn args_dict name (list_ascii_of_string (drop 1 argument)) ;;
      Ok (RCluster (fst r) (snd r))
    else
      (* the token "-": [name] keeps its value from the previous iteration *)
      match name with
      | Some n => Ok (RName n)
      | None => Err (UnboundLocalError "name")
      end
  else Err (PyoptError MMustStart).

(** The [while i < len(raw_args)] loop. *)
Fixpoint kw_loop (w : wrapper) (stn : dict string) (args_dict : dict value)
    (name : option string) (raw_args : list string) : result (dict value) :=
  match raw_args with
  | [] => Ok args_dict
  | argument :: rest =>
      r <- kw_resolve w stn args_dict name argument ;;
      match r with
      | RCluster d' name' => kw_loop w stn d' name' rest
      | RName n =>
          if negb (mem n (arg_names w)) then Err (PyoptError (MIllegalOption n))
          else
            val_type <- cast_of w n ;;
            if is_bool_caster val_type then
              kw_loop w stn (dict_set n (VBool true) args_dict) (Some n) rest
            else
              match rest with
              | [] => Err IndexError
              | v :: rest' =>
                  val <- apply_cast val_type v ;;
                  kw_loop w stn (dict_set n val args_dict) (Some n) rest'
              end
      end
  end.

(** All booleans start at [False]. *)
Definition bools_false (w : wrapper) : dict value :=
  fold_left (fun d n => dict_set n (VBool false) d) (booleans w) [].

(** The last element of a list, if any. *)
Fixpoint last_opt {A} (l : list A) : option A :=
  match l with
  | [] => None
  | [x] => Some x
  | _ :: r => last_opt r
  end.

(** [for name in self.booleans: args_dict[name] = False] leaves the local
    [name] bound to the last boolean parameter (unbound when there is none);
    the parsing loop starts from that binding. *)
Definition kw_parse (w : wrapper) (raw_args : list string)
  : result (list value * dict value) :=
  args_dict <- kw_loop w (short_to_name w) (bools_false w) (last_opt (booleans w)) raw_args ;;
  let not_given := filter (fun a => negb (dict_mem a args_dict)) (required w) in
  match not_given with
  | [] => Ok ([], args_dict)
  | _ => Err (PyoptError (MRequired not_given))
  end.

(** ** Python's [getopt.getopt]

    The standard-library implementation (non-permuting: scanning stops at the
    first argument that is not an option). *)
Module Getopt.

(** [short_has_arg]: [opt == shortopts[i] != ':'] for the first such [i]. *)
Fixpoint short_has_arg (opt : ascii) (shortopts : string) : result bool :=
  match shortopts with
  | EmptyString =>
      Err (GetoptError ("option -" ++ str1 opt ++ " not recognized") (str1 opt))
  | String c r =>
      if Ascii.eqb opt c && negb (Ascii.eqb c ":"%char) then
        Ok (startswith r ":")
      else short_has_arg opt r
  end.

(** [do_shorts]; [next] is [args[0]] when there is one, and the boolean of the
    result says whether it was consumed. *)
Fixpoint do_shorts (opts : list (string * string)) (optstring : string)
    (shortopts : string) (next : option string)
  : result (list (string * string) * bool) :=
  match optstring with
  | EmptyString => Ok (opts, false)
  | String opt r =>
      has <- short_has_arg opt shortopts ;;
      if has then
        match r with
        | EmptyString =>
            match next with
            | None => Err (GetoptError ("option -" ++ str1 opt ++ " requires argument")
                                      (str1 opt))
            | Some a => Ok (py_append opts ("-" ++ str1 opt, a), true)
            end
        | _ => Ok (py_append opts ("-" ++ str1 opt, r), false)
        end
      else do_shorts (py_append opts ("-" ++ str1 opt, "")) r shortopts next
  end.

(** [opt.index('=')] splitting. *)
Fixpoint split_eq (s : string) : option (string * string) :=
  match s with
  | EmptyString => None
  | String c r =>
      if Ascii.eqb c "="%char then Some (EmptyString, r)
      else match split_eq r with
           | Some (a, b) => Some (String c a, b)
           | None => None
           end
  end.

Definition ends_with_eq (s : string) : bool :=
  match rev (list_ascii_of_string s) with
  | c :: _ => Ascii.eqb c "="%char
  | [] => false
  end.

(** [s[:-1]] *)
Definition drop_last (s : string) : string := substring 0 (String.length s - 1) s.

(** [long_has_args] *)
Definition long_has_args (opt : string) (longopts : list string) : result (bool * string) :=
  let possibilities := filter (fun o => startswith o opt) longopts in
  match possibilities with
  | [] => Err (GetoptError ("option --" ++ opt ++ " not recognized") opt)
  | [unique_match] =>
      if mem opt possibilities then Ok (false, opt)
      else if mem (opt ++ "=") possibilities then Ok (true, opt)
      else if ends_with_eq unique_match then Ok (true, drop_last unique_match)
      else Ok (false, unique_match)
  | _ =>
      if mem opt possibilities then Ok (false, opt)
      else if mem (opt ++ "=") possibilities then Ok (true, opt)
      else Err (GetoptError ("option --" ++ opt ++ " not a unique prefix") opt)
  end.

(** [do_longs] *)
Definition do_longs (opts : list (string * string)) (opt0 : string)
    (longopts : list string) (next : option string)
  : result (list (string * string) * bool) :=
  let '(opt, optarg) := match split_eq opt0 with
                        | Some (a, b) => (a, Some b)
                        | None => (opt0, None)
                        end in
  r <- long_has_args opt longopts ;;
  let '(has_arg, opt) := r in
  if has_arg then
    match optarg with
    | Some a => Ok (py_append opts ("--" ++ opt, a), false)
    | None =>
        match next with
        | None => Err (GetoptError ("option --" ++ opt ++ " requires argument") opt)
        | Some a => Ok (py_append opts ("--" ++ opt, a), true)
        end
    end
  else
    match optarg with
    | Some _ => Err (GetoptError ("option --" ++ opt ++ " must not have an argument") opt)
    | None => Ok (py_append opts ("--" ++ opt, ""), false)
    end.

(** The [while args and args[0].startswith('-') and args[0] != '-'] loop. *)
Fixpoint getopt_loop (shortopts : string) (longopts : list string)
    (opts : list (string * string)) (args : list string)
  : result (list (string * string) * list string) :=
  match args with
  | [] => Ok (opts, [])
  | a :: rest =>
      if startswith a "-" && negb (str_eqb a "-") then
        if str_eqb a "--" then Ok (opts, rest)
        else
          r <- (if startswith a "--" then do_longs opts (drop 2 a) longopts (hd_error rest)
                else do_shorts opts (drop 1 a) shortopts (hd_error rest)) ;;
          let '(opts', used) := r in
          if used then
            match rest with
            | _ :: rest' => getopt_loop shortopts longopts opts' rest'
            | [] => Ok (opts', [])
            end
          else getopt_loop shortopts longopts opts' rest
      else Ok (opts, args)
  end.

Definition getopt (args : list string) (shortopts : string) (longopts : list string)
  : result (list (string * string) * list string) :=
  getopt_loop shortopts longopts [] args.

End Getopt.

(** ** [MixedFunction.parse] *)

(** [l.remove(x)]: drops the first occurrence; [None] when [x] is absent (the
    source then raises [ValueError]). *)
Fixpoint remove_first (x : string) (l : list string) : option (list string) :=
  match l with
  | [] => None
  | y :: r => if str_eqb x y then Some r
              else option_map (cons y) (remove_first x r)
  end.

(** The [for opt, val in optlist] loop: returns the remaining candidate names
    ([arg_names]) and [kwargs_dict]. *)
Fixpoint mixed_opts (w : wrapper) (stn : dict string) (arg_names : list string)
    (kwargs_dict : dict value) (name : option string) (optlist : list (string * string))
  : result (list string * dict value) :=
  match optlist with
  | [] => Ok (arg_names, kwargs_dict)
  | (opt, val) :: r =>
      n <- (if startswith opt "--" then Ok (drop 2 opt)
            else if startswith opt "-" then
              match dict_get (char_at 1 opt) stn with
              | Some n => Ok n
              | None => Err (KeyError (char_at 1 opt))
              end
            else match name with
                 | Some n => Ok n
                 | None => Err (UnboundLocalError "name")
                 end) ;;
      c <- cast_of w n ;;
      v <- apply_cast c val ;;
      let kwargs_dict := dict_set n v kwargs_dict in
      match remove_first n arg_names with
      | None => Err (ValueError "list.remove(x): x not in list")
      | Some arg_names' => mixed_opts w stn arg_names' kwargs_dict (Some n) r
      end
  end.

(** [shorts_str]: note that the source joins [[name][0]], i.e. the whole
    boolean name, not its first letter. *)
Definition mixed_shorts (w : wrapper) : string :=
  join "" (map (fun name => name) (booleans w)) ++
  join "" (map (fun name => first_char name ++ ":") (required w)).

Definition mixed_longs (w : wrapper) : list string :=
  app (booleans w) (map (fun name => name ++ "=") (required w)).

Definition mixed_parse (w : wrapper) (raw_args : list string)
  : result (list value * dict value) :=
  r <- Getopt.getopt raw_args (mixed_shorts w) (mixed_longs w) ;;
  let '(optlist, uncasted_args_list) := r in
  r2 <- mixed_opts w (short_to_name w) (arg_names w) [] None optlist ;;
  let '(arg_names', kwargs_dict) := r2 in
  args_list <- cast_each w (combine arg_names' uncasted_args_list) ;;
  Ok (args_list, kwargs_dict).

(** ** The three wrapper classes *)

Inductive kind := KArgs | KKwargs | KMixed.

Record entry := mk_entry {
  e_kind : kind;
  e_wrapper : wrapper
}.

(** [func.parse(raw_args)], dispatched on the wrapper's class. *)
Definition parse (e : entry) (raw_args : list string) : result (list value * dict value) :=
  match e_kind e with
  | KArgs => args_parse (e_wrapper e) raw_args
  | KKwargs => kw_parse (e_wrapper e) raw_args
  | KMixed => mixed_parse (e_wrapper e) raw_args
  end.

(** Example signatures from the repository's examples and tests. *)
Definition roll_dice : pyfunc :=
  mk_pyfunc "roll_dice" [("number_of_faces", Some CInt); ("repetitions", Some CInt)] 0 None.

Definition bigfun : pyfunc :=
  mk_pyfunc "bigfun"
    [("brightness", Some CInt); ("nudge", Some CBool); ("happy", Some CBool);
     ("shaft", Some CStr)] 1 (Some "QWERTY").

(** ** [Exposer]: registration *)

(** [self.functions_dict]: command name to wrapper, in insertion order. *)
Definition registry := dict entry.

(** [self.functions_dict[function.__name__] = <Class>(function)] *)
Definition expose (k : kind) (f : pyfunc) (functions_dict : registry) : registry :=
  dict_set (fn_name f) (mk_entry k (FunctionWrapper f)) functions_dict.

(** The decorators [Exposer.args], [Exposer.kwargs] and [Exposer.mixed]. *)
Definition Exposer_args := expose KArgs.
Definition Exposer_kwargs := expose KKwargs.
Definition Exposer_mixed := expose KMixed.

(** [Exposer.__init__(kw_funcs_list, pos_funcs_list, mixed_funcs_list)] *)
Definition Exposer_init (kw_funcs_list pos_funcs_list mixed_funcs_list : list pyfunc)
  : registry :=
  let d := fold_left (fun d f => Exposer_kwargs f d) kw_funcs_list [] in
  let d := fold_left (fun d f => Exposer_args f d) pos_funcs_list d in
  fold_left (fun d f => Exposer_mixed f d) mixed_funcs_list d.

Definition HELP_SET : list string := ["-h"; "--help"; "/?"; "?"; "-?"].

Definition tab : string := String (ascii_of_nat 9) EmptyString.
Definition newline : string := String (ascii_of_nat 10) EmptyString.

Fixpoint repeat_str (s : string) (n : nat) : string :=
  match n with O => EmptyString | S k => s ++ repeat_str s k end.

(** [indent(string, tab_count)] *)
Definition indent (s : string) (tab_count : nat) : string :=
  join newline (map (fun ln => repeat_str tab tab_count ++ strip ln) (splitlines s)).

Fixpoint after_last_slash (cur : list ascii) (l : list ascii) : list ascii :=
  match l with
  | [] => rev cur
  | c :: r => if Ascii.eqb c "/"%char then after_last_slash [] r
              else after_last_slash (c :: cur) r
  end.

(** [os.path.basename] (POSIX) *)
Definition basename (p : string) : string :=
  string_of_list_ascii (after_last_slash [] (list_ascii_of_string p)).

(** ** Output and exceptions

    A computation that may [print] and raise: the printed strings, in order,
    and the outcome. *)
Definition io (A : Type) := (list string * result A)%type.

Definition ret {A} (a : A) : io A := ([], Ok a).
Definition raise {A} (e : exn) : io A := ([], Err e).
Definition print (s : string) : io unit := ([s], Ok tt).
Definition lift {A} (r : result A) : io A := ([], r).

Definition io_bind {A B} (m : io A) (k : A -> io B) : io B :=
  match m with
  | (out, Ok a) => let '(out', r) := k a in ((out ++ out')%list, r)
  | (out, Err e) => (out, Err e)
  end.

Notation "x <-- m ;;; k" := (io_bind m (fun x => k))
  (at level 61, m at next level, right associativity).

(** ** Usage rendering and dispatch

    [set_iter] is the iteration order of the Python set [self.optional], which
    CPython leaves to string hashing. *)
Section Dispatch.

Variable set_iter : list string -> list string.

(** [parameters_repr] of the three classes. *)
Definition parameters_repr (e : entry) : string :=
  let w := e_wrapper e in
  match e_kind e with
  | KArgs =>
      let req_str := join " " (required w) in
      let opt_str := join " " (map (fun arg => "[" ++ arg ++ "]") (set_iter (optional w))) in
      join " " [req_str; opt_str]
  | KKwargs | KMixed =>
      let req_str := join " " (map (fun arg => "-" ++ first_char arg ++ " " ++ arg)
                                   (required w)) in
      let opt_str := join " " (map (fun arg => "[-" ++ first_char arg ++ " " ++ arg ++ "]")
                                   (filter (fun arg => negb (mem arg (booleans w)))
                                           (set_iter (optional w)))) in
      let bools_str := join " " (map (fun arg => "[-" ++ first_char arg ++ "]")
                                     (booleans w)) in
      join " " [req_str; opt_str; bools_str]
  end.

(** [print_usage_single_func(script_name, func)]: prints, returns [None]. *)
Definition print_usage_single_func (script_name : string) (e : entry) : io (option string) :=
  _ <-- print ("Usage: " ++ script_name ++ " " ++ parameters_repr e) ;;;
  match fn_doc (function (e_wrapper e)) with
  | Some doc => _ <-- print (indent (strip doc) 1) ;;; ret None
  | None => ret None
  end.

(** [FunctionWrapper.get_doc] *)
Definition get_doc (e : entry) : string :=
  match fn_doc (function (e_wrapper e)) with
  | None => ""
  | Some doc => indent (strip doc) 2
  end.

(** [FunctionWrapper.get_usage] *)
Definition get_usage (e : entry) : string :=
  tab ++ w_name (e_wrapper e) ++ " " ++ parameters_repr e ++ newline ++ get_doc e.

Fixpoint print_all (l : list string) : io unit :=
  match l with
  | [] => ret tt
  | s :: r => _ <-- print s ;;; print_all r
  end.

(** [Exposer.print_complete_usage]: prints, returns [None]. *)
Definition print_complete_usage (functions_dict : registry) (script_name : string)
  : io (option string) :=
  _ <-- print ("Usage: " ++ script_name ++ " [function_name] [args]") ;;;
  _ <-- print "Available functions are:" ;;;
  _ <-- print_all (map (fun '(_, e) => get_usage e) functions_dict) ;;;
  ret None.

(** [Exposer.give_help] *)
Definition give_help (functions_dict : registry) (script_name : string)
    (cmd_args : list string) : io (option string) :=
  match nth_error cmd_args 2 with
  | None => (* IndexError, caught *)
      print_complete_usage functions_dict script_name
  | Some func_name =>
      match dict_get func_name functions_dict with
      | Some e => raise (PrintHelp (Some (get_usage e)))
      | None => ret None
      end
  end.

(** [Exposer.parse_args(cmd_args)]: the wrapper to call and its arguments. *)
Definition parse_args (functions_dict : registry) (cmd_args : list string)
  : io (entry * list value * dict value) :=
  match cmd_args with
  | [] => raise IndexError   (* [cmd_args[0]] *)
  | arg0 :: raw_single =>
      let script_name := basename arg0 in
      match functions_dict with
      | [] => raise (NotImplementedError
                       "No functions were decorated for command-line usage.")
      | [(_, func)] =>
          (* single function: [raw_args = cmd_args[1:]] *)
          match raw_single with
          | arg1 :: _ =>
              if mem arg1 HELP_SET then
                p <-- print_usage_single_func (basename arg0) func ;;;
                raise (PrintHelp p)
              else r <-- lift (parse func raw_single) ;;;
                   ret (func, fst r, snd r)
          | [] => r <-- lift (parse func raw_single) ;;; ret (func, fst r, snd r)
          end
      | _ =>
          let raw_args := skipn 2 cmd_args in
          match raw_single with
          | [] =>
              p <-- print_complete_usage functions_dict script_name ;;;
              raise (PrintHelp p)
          | arg1 :: _ =>
              if mem arg1 HELP_SET then
                p <-- give_help functions_dict script_name cmd_args ;;;
                raise (PrintHelp p)
              else
                match dict_get arg1 functions_dict with
                | Some func =>
                    r <-- lift (parse func raw_args) ;;; ret (func, fst r, snd r)
                | None => raise (PyoptError (MUnknownFunction arg1))
                end
          end
      end
  end.

End Dispatch.

(** ** [Exposer.run] *)

(** [str(e)] of a [PyoptError]. *)
Definition msg_text (m : pyopt_msg) : string :=
  match m with
  | MTooFew needed got =>
      nat_str needed ++ " arguments required, got only " ++ nat_str got ++ "."
  | MTooMany got most =>
      "Got " ++ nat_str got ++ " arguments and expected at most " ++ nat_str most ++ "."
  | MIllegalBool short => "Illegal option '" ++ short ++ "' given as boolean."
  | MMustStart => "Options must start with '-' or '--'."
  | MIllegalOption name => "Illegal option '" ++ name ++ "' given."
  | MRequired names => "The following options are required: " ++ join ", " names ++ "."
  | MUnknownFunction name => "Unkown function '" ++ name ++ "'."
  end.

Definition HINT : string := "Run with ? or -h for more help.".

(** How [run] ends: the exposed function is called with the bound arguments
    (its body is outside this model), an exception is caught and printed, or
    an exception escapes [run]. *)
Inductive outcome :=
| Called (f : pyfunc) (args : list value) (kwargs : dict value)
| Handled
| Raised (e : exn).

(** [Exposer.run(cmd_args)]: [except PrintHelp], [except ValueError] and
    [except PyoptError], in this order. *)
Definition run (set_iter : list string -> list string) (functions_dict : registry)
    (cmd_args : list string) : list string * outcome :=
  let '(out, r) := parse_args set_iter functions_dict cmd_args in
  match r with
  | Ok (func, args, kwargs) => (out, Called (function (e_wrapper func)) args kwargs)
  | Err (PrintHelp p) =>
      (py_append out (match p with Some s => s | None => "None" end), Handled)
  | Err (ValueError m) => (py_append out (m ++ ". " ++ HINT), Handled)
  | Err (PyoptError m) => (py_append out (msg_text m ++ " " ++ HINT), Handled)
  | Err e => (out, Raised e)
  end.

(** The identity iteration order, used to evaluate examples. *)
Definition in_order (l : list string) : list string := l.


(** One (parameter, token) pair cast to one value. *)
Definition casts_to (w : wrapper) (pair : string * string) (v : value) : Prop :=
  exists c, cast_of w (fst pair) = Ok c /\ apply_cast c (snd pair) = Ok v.

(** Further signatures used below. *)
Definition single_int : pyfunc := mk_pyfunc "single_int" [("count", Some CInt)] 0 None.

Definition collide : pyfunc :=
  mk_pyfunc "collide" [("brightness", Some CInt); ("bold", Some CBool)] 0 None.

Definition flags : pyfunc :=
  mk_pyfunc "flags" [("nudge", Some CBool); ("happy", Some CBool)] 0 None.

Definition flags_int : pyfunc :=
  mk_pyfunc "flags_int" [("nudge", Some CBool); ("happy", Some CInt)] 1 None.

(** Parameter names are Python identifiers: non-empty, and made of ASCII
    letters, digits and underscores. *)
Definition is_ident_char (c : ascii) : bool :=
  let n := nat_of_ascii c in
  ((48 <=? n) && (n <=? 57)) || ((65 <=? n) && (n <=? 90)) ||
  ((97 <=? n) && (n <=? 122)) || (n =? 95).

Definition is_identifier (s : string) : bool :=
  negb (str_eqb s "") && forallb is_ident_char (list_ascii_of_string s).

(** The functions given to [Exposer.__init__], tagged with the decorator
    applied to them, in the order they are registered. *)
Definition init_order (kw_funcs_list pos_funcs_list mixed_funcs_list : list pyfunc)
  : list (kind * pyfunc) :=
  app (map (pair KKwargs) kw_funcs_list)
      (app (map (pair KArgs) pos_funcs_list) (map (pair KMixed) mixed_funcs_list)).

(** An element of the option list returned by [getopt]: a short option whose
    character [shortopts] accepts, with an empty value unless [shortopts]
    gives it an argument, or a long option [--name] where [name] is in
    [longopts] with an empty value, or [name=] is in [longopts]. *)
Definition getopt_entry (shortopts : string) (longopts : list string)
    (ov : string * string) : Prop :=
  (exists c has, fst ov = String "-" (str1 c) /\
     Getopt.short_has_arg c shortopts = Ok has /\ (has = false -> snd ov = "")) \/
  (exists name, fst ov = "--" ++ name /\
     ((In name longopts /\ snd ov = "") \/ In (name ++ "=") longopts)).

(** The lines [print_complete_usage] writes. *)
Definition complete_usage_lines (set_iter : list string -> list string)
    (functions_dict : registry) (script_name : string) : list string :=
  ("Usage: " ++ script_name ++ " [function_name] [args]")
    :: "Available functions are:"
    :: map (fun '(_, e) => get_usage set_iter e) functions_dict.

(** ** Evaluation on the repository's test inputs *)

Example mixed_dice_62 :
  mixed_parse (FunctionWrapper roll_dice) ["6"; "2"] = Ok ([VInt 6; VInt 2], []).
Proof. reflexivity. Qed.

Example mixed_dice_r26 :
  mixed_parse (FunctionWrapper roll_dice) ["-r"; "2"; "6"]
  = Ok ([VInt 6], [("repetitions", VInt 2)]).
Proof. reflexivity. Qed.

Example kw_bigfun :
  kw_parse (FunctionWrapper bigfun) ["-nh"; "-s"; "dirt"; "-b"; "120"]
  = Ok ([], [("nudge", VBool true); ("happy", VBool true);
             ("shaft", VStr "dirt"); ("brightness", VInt 120)]).
Proof. reflexivity. Qed.

Example dispatch_multi :
  let reg := Exposer_args (mk_pyfunc "robin" [("archer", Some CStr); ("boulder", None);
                                               ("magic", Some CInt)] 1 None)
               (Exposer_mixed roll_dice (Exposer_kwargs bigfun [])) in
  snd (parse_args in_order reg ["x.py"; "roll_dice"; "6"; "2"])
  = Ok (mk_entry KMixed (FunctionWrapper roll_dice), [VInt 6; VInt 2], []).
Proof. reflexivity. Qed.

Example run_unknown_cmd :
  let reg := Exposer_mixed roll_dice (Exposer_kwargs bigfun []) in
  run in_order reg ["prog.exe"; "unknown_cmd"]
  = (["Unkown function 'unknown_cmd'. Run with ? or -h for more help."], Handled).
Proof. reflexivity. Qed.

(** ** Lemmas on the helpers *)

Lemma str_eqb_spec x y : Bool.reflect (x = y) (str_eqb x y).
Proof. apply String.eqb_spec. Qed.

Lemma dict_get_set {A} (k x : string) (v : A) (d : dict A) :
  dict_get x (dict_set k v d) = if str_eqb x k then Some v else dict_get x d.
Proof.
  induction d as [|[k' v'] r IH]; simpl.
  - destruct (str_eqb x k); reflexivity.
  - destruct (str_eqb_spec k k') as [<-|Hne]; simpl.
    + destruct (str_eqb x k); reflexivity.
    + rewrite IH.
      destruct (str_eqb_spec x k'), (str_eqb_spec x k); subst; congruence.
Qed.

Lemma dict_mem_set {A} (k x : string) (v : A) (d : dict A) :
  dict_mem x (dict_set k v d) = str_eqb x k || dict_mem x d.
Proof.
  unfold dict_mem. rewrite dict_get_set. destruct (str_eqb x k); reflexivity.
Qed.

Lemma dict_set_set {A} (k : string) (v1 v2 : A) (d : dict A) :
  dict_set k v2 (dict_set k v1 d) = dict_set k v2 d.
Proof.
  induction d as [|[k' v'] r IH]; simpl.
  - rewrite String.eqb_refl. reflexivity.
  - destruct (str_eqb_spec k k') as [<-|Hne]; simpl.
    + rewrite String.eqb_refl. reflexivity.
    + destruct (str_eqb_spec k k'); [contradiction|]. rewrite IH. reflexivity.
Qed.

Lemma filter_filter_and {A} (f g : A -> bool) (l : list A) :
  filter g (filter f l) = filter (fun x => f x && g x) l.
Proof.
  induction l as [|x r IH]; simpl; [reflexivity|].
  destruct (f x); simpl; [destruct (g x)|]; rewrite ?IH; reflexivity.
Qed.

Lemma filter_neq_notin (n : string) (l : list string) :
  ~ In n l -> filter (fun x => negb (str_eqb x n)) l = l.
Proof.
  induction l as [|y r IH]; simpl; intros Hn; [reflexivity|].
  destruct (str_eqb_spec y n) as [->|_]; [tauto|]. simpl. rewrite IH; tauto.
Qed.

Lemma remove_first_filter (n : string) (l l' : list string) :
  NoDup l -> remove_first n l = Some l' ->
  l' = filter (fun x => negb (str_eqb x n)) l.
Proof.
  revert l'. induction l as [|y r IH]; simpl; intros l' Hnd Hr; [discriminate|].
  inversion Hnd as [|? ? Hy Hnd']; subst.
  destruct (str_eqb_spec n y) as [<-|Hne].
  - injection Hr as <-. rewrite String.eqb_refl. simpl.
    symmetry. apply filter_neq_notin. exact Hy.
  - destruct (remove_first n r) as [l0|] eqn:E; simpl in Hr; [|discriminate].
    injection Hr as <-.
    destruct (str_eqb_spec y n) as [->|_]; [congruence|]. simpl.
    f_equal. apply IH; auto.
Qed.

(** Case analysis on a [bind] in a hypothesis [H : bind m k = Ok _]. *)
Ltac bind_ok H :=
  match type of H with
  | bind ?m _ = Ok _ =>
      let E := fresh "E" in
      destruct m eqn:E; simpl in H; [|discriminate]
  end.

(** The candidate list of [MixedFunction.parse] is always the declared names not
    yet in [kwargs_dict], in declaration order. *)
Lemma mixed_opts_candidates w stn (A : list string) names kw name optlist names' kw' :
  NoDup A ->
  names = filter (fun n => negb (dict_mem n kw)) A ->
  mixed_opts w stn names kw name optlist = Ok (names', kw') ->
  names' = filter (fun n => negb (dict_mem n kw')) A.
Proof.
  intros HA. revert names kw name.
  induction optlist as [|[opt val] r IH]; simpl; intros names kw name Hn H.
  - injection H as <- <-. exact Hn.
  - bind_ok H. bind_ok H. bind_ok H.
    destruct (remove_first a names) as [names1|] eqn:Er; [|discriminate].
    eapply IH; [|exact H].
    apply remove_first_filter in Er; [|subst names; apply NoDup_filter; exact HA].
    rewrite Er, Hn, filter_filter_and. apply filter_ext. intros x.
    rewrite dict_mem_set. destruct (str_eqb x a), (dict_mem x kw); reflexivity.
Qed.

(** [getopt] returns a suffix of its arguments as the positional remainder. *)
Lemma getopt_loop_suffix so lo opts args opts' rest :
  Getopt.getopt_loop so lo opts args = Ok (opts', rest) ->
  exists pre, args = (pre ++ rest)%list.
Proof.
  remember (List.length args) as n eqn:Hn. assert (Hle : List.length args <= n) by lia.
  clear Hn. revert args opts Hle.
  induction n as [|n IH]; intros args opts Hle H; destruct args as [|a r]; simpl in H.
  1,3: injection H as _ <-; exists []; reflexivity.
  1: simpl in Hle; lia.
  destruct (startswith a "-" && negb (str_eqb a "-")).
  2:{ injection H as _ <-. exists []. reflexivity. }
  destruct (str_eqb a "--").
  { injection H as _ <-. exists [a]. reflexivity. }
  bind_ok H. destruct a0 as [opts1 used]. destruct used.
  - destruct r as [|b r'].
    + injection H as _ <-. exists [a]. reflexivity.
    + apply IH in H as [pre Hp]; [|simpl in Hle; lia].
      exists (a :: b :: pre). simpl. rewrite <- Hp. reflexivity.
  - apply IH in H as [pre Hp]; [|simpl in Hle; lia].
    exists (a :: pre). simpl. rewrite <- Hp. reflexivity.
Qed.

Lemma filter_no_kwargs (A : list string) :
  filter (fun n => negb (@dict_mem value n [])) A = A.
Proof. induction A as [|x r IH]; [reflexivity|]. cbn [filter]. rewrite IH. reflexivity. Qed.

(** ** C1: Hybrid mode binds the leftover tokens against the parameters no flag set *)

(** C1. In Hybrid mode ([MixedFunction.parse]) the flags scanned by [getopt]
    are bound by name, and the remaining tokens (a suffix of the input) are
    cast against the declared parameters that no flag bound, in declaration
    order.  On [roll_dice(number_of_faces:int, repetitions:int)], ["6" "2"]
    gives [[6, 2]] and an empty map, ["-r" "2" "6"] gives [[6]] and
    [{repetitions: 2}]. *)
Theorem mixed_parse_candidates :
  mixed_parse (FunctionWrapper roll_dice) ["6"; "2"] = Ok ([VInt 6; VInt 2], []) /\
  mixed_parse (FunctionWrapper roll_dice) ["-r"; "2"; "6"]
    = Ok ([VInt 6], [("repetitions", VInt 2)]) /\
  forall w toks args kwargs,
    NoDup (arg_names w) ->
    mixed_parse w toks = Ok (args, kwargs) ->
    exists optlist rest pre,
      Getopt.getopt toks (mixed_shorts w) (mixed_longs w) = Ok (optlist, rest) /\
      toks = (pre ++ rest)%list /\
      cast_each w (combine (filter (fun n => negb (dict_mem n kwargs)) (arg_names w)) rest)
        = Ok args.
Proof.
  split; [reflexivity|]. split; [reflexivity|].
  intros w toks args kw Hnd H. unfold mixed_parse in H.
  bind_ok H. destruct a as [optlist rest]. cbn beta iota in H.
  bind_ok H. destruct a as [names' kw']. cbn beta iota in H.
  bind_ok H. injection H as <- <-.
  destruct (getopt_loop_suffix _ _ _ _ _ _ E) as [pre Hp].
  exists optlist, rest, pre. split; [reflexivity|]. split; [exact Hp|].
  erewrite <- mixed_opts_candidates; [exact E1|exact Hnd| |exact E0].
  symmetry. apply filter_no_kwargs.
Qed.

Lemma mixed_parse_candidates_witness :
  NoDup (arg_names (FunctionWrapper roll_dice)) /\
  exists optlist rest pre,
    Getopt.getopt ["-r"; "2"; "6"] (mixed_shorts (FunctionWrapper roll_dice))
      (mixed_longs (FunctionWrapper roll_dice)) = Ok (optlist, rest) /\
    ["-r"; "2"; "6"] = (pre ++ rest)%list /\
    cast_each (FunctionWrapper roll_dice)
      (combine (filter (fun n => negb (dict_mem n [("repetitions", VInt 2)]))
                       (arg_names (FunctionWrapper roll_dice))) rest) = Ok [VInt 6].
Proof.
  assert (Hnd : NoDup (arg_names (FunctionWrapper roll_dice))).
  { simpl. constructor; [simpl; intros [H|H]; [discriminate|exact H]|].
    constructor; [intros []|constructor]. }
  split; [exact Hnd|].
  apply (proj2 (proj2 mixed_parse_candidates) (FunctionWrapper roll_dice)
           ["-r"; "2"; "6"]); [exact Hnd|reflexivity].
Defined.

(** ** C2: arity checks and casting of [ArgsFunction.parse] *)

Lemma cast_each_ok w l vs :
  cast_each w l = Ok vs <-> Forall2 (casts_to w) l vs.
Proof.
  revert vs. induction l as [|[name raw] r IH]; intros vs; cbn [cast_each].
  - split; [intros H; injection H as <-; constructor|intros H; inversion H; reflexivity].
  - split.
    + intros H.
      destruct (cast_of w name) as [c|e] eqn:Ec; simpl in H; [|discriminate].
      destruct (apply_cast c raw) as [v|e] eqn:Ev; simpl in H; [|discriminate].
      destruct (cast_each w r) as [vs'|e] eqn:Er; simpl in H; [|discriminate].
      injection H as <-.
      constructor; [exists c; split; assumption|apply IH; reflexivity].
    + intros H. inversion H as [|? v ? vs' [c [Hc Hv]] Hr]; subst. simpl in Hc, Hv.
      rewrite Hc. simpl. rewrite Hv. simpl. apply IH in Hr. rewrite Hr. reflexivity.
Qed.

Lemma combine_length_le {A B} (l1 : list A) (l2 : list B) :
  List.length l2 <= List.length l1 -> List.length (combine l1 l2) = List.length l2.
Proof. intros H. rewrite length_combine. lia. Qed.

Lemma needed_args_wrapper f :
  needed_args (FunctionWrapper f) = List.length (fn_params f) - fn_defaults f.
Proof. unfold FunctionWrapper. simpl. rewrite length_map. reflexivity. Qed.

Lemma arg_names_length f :
  List.length (arg_names (FunctionWrapper f)) = List.length (fn_params f).
Proof. simpl. apply length_map. Qed.

(** C2 (counterexample).  [single_int(count:int)] has one parameter and no
    default; one token is within the arity bounds, yet ["asdf"] does not bind:
    [int("asdf")] raises [ValueError]. *)
Lemma args_parse_cast_failure :
  needed_args (FunctionWrapper single_int) <= 1 <= List.length (arg_names (FunctionWrapper single_int)) /\
  args_parse (FunctionWrapper single_int) ["asdf"]
    = Err (ValueError "invalid literal for int() with base 10: 'asdf'") /\
  ~ (exists vs kwargs, args_parse (FunctionWrapper single_int) ["asdf"] = Ok (vs, kwargs)).
Proof.
  split; [simpl; lia|]. split; [reflexivity|].
  intros [vs [kw H]]. discriminate H.
Qed.

(** C2 (amended).  For a positional command with [n] parameters of which [d]
    have defaults ([needed = n - d]) and tokens [t]: fewer than [needed] tokens
    raise [TooFewArguments]; otherwise more than [n] raise [TooManyArguments];
    otherwise token [i] is cast with parameter [i]'s caster, in order, and the
    call succeeds exactly when every cast does, returning the [len t] cast
    values and an empty map (the first failing cast's exception otherwise). *)
Theorem args_parse_arity :
  forall f toks,
    let w := FunctionWrapper f in
    let n := List.length (fn_params f) in
    let needed := n - fn_defaults f in
    (List.length toks < needed ->
       args_parse w toks = Err (PyoptError (MTooFew needed (List.length toks)))) /\
    (needed <= List.length toks -> n < List.length toks ->
       args_parse w toks = Err (PyoptError (MTooMany (List.length toks) n))) /\
    (needed <= List.length toks <= n ->
       (forall vs kwargs, args_parse w toks = Ok (vs, kwargs) <->
          kwargs = [] /\ List.length vs = List.length toks /\
          Forall2 (casts_to w) (combine (arg_names w) toks) vs) /\
       (forall e, args_parse w toks = Err e <->
          cast_each w (combine (arg_names w) toks) = Err e)).
Proof.
  intros f toks w n needed.
  assert (Hneed : needed_args w = needed) by apply needed_args_wrapper.
  assert (Hn : List.length (arg_names w) = n) by apply arg_names_length.
  unfold args_parse. rewrite Hneed, Hn.
  split; [|split].
  - intros H. apply Nat.ltb_lt in H. rewrite H. reflexivity.
  - intros H1 H2. apply Nat.ltb_ge in H1. apply Nat.ltb_lt in H2.
    rewrite H1, H2. reflexivity.
  - intros [H1 H2]. apply Nat.ltb_ge in H1. assert (H2' := H2).
    apply Nat.ltb_ge in H2. rewrite H1, H2. split.
    + intros vs kw. split.
      * intros H. bind_ok H. injection H as <- <-.
        apply cast_each_ok in E. split; [reflexivity|]. split; [|exact E].
        apply Forall2_length in E. rewrite <- E. apply combine_length_le. lia.
      * intros [-> [_ H]]. apply cast_each_ok in H. rewrite H. reflexivity.
    + intros e. destruct (cast_each w (combine (arg_names w) toks)); simpl.
      * split; intros H; discriminate H.
      * split; intros H; injection H as ->; reflexivity.
Qed.

Lemma args_parse_arity_witness :
  args_parse (FunctionWrapper single_int) []
    = Err (PyoptError (MTooFew 1 0)) /\
  args_parse (FunctionWrapper single_int) ["1"; "2"]
    = Err (PyoptError (MTooMany 2 1)) /\
  args_parse (FunctionWrapper single_int) ["7"] = Ok ([VInt 7], []).
Proof.
  split; [apply (proj1 (args_parse_arity single_int [])); simpl; lia|].
  split; [apply (proj1 (proj2 (args_parse_arity single_int ["1"; "2"]))); simpl; lia|].
  apply (proj1 (proj2 (proj2 (args_parse_arity single_int ["7"])) ltac:(simpl; lia))).
  split; [reflexivity|]. split; [reflexivity|].
  constructor; [|constructor]. exists CInt. split; reflexivity.
Defined.

(** ** C3: registration does not check first letters *)

Lemma last_opt_some {A} (x : A) l : exists y, last_opt (x :: l) = Some y.
Proof.
  revert x. induction l as [|y r IH]; intros x; [exists x; reflexivity|].
  destruct (IH y) as [z Hz]. exists z. exact Hz.
Qed.

Lemma last_opt_cons {A} (x : A) l :
  last_opt (x :: l) = match last_opt l with Some y => Some y | None => Some x end.
Proof.
  destruct l as [|y r]; [reflexivity|].
  destruct (last_opt_some y r) as [z Hz]. change (last_opt (y :: r) = Some z) in Hz.
  change (last_opt (x :: y :: r)) with (last_opt (y :: r)). rewrite Hz. reflexivity.
Qed.

Lemma short_to_name_fold (c : string) l d0 :
  dict_get c (fold_left (fun d name => dict_set (first_char name) name d) l d0)
  = match last_opt (filter (fun n => str_eqb (first_char n) c) l) with
    | Some n => Some n
    | None => dict_get c d0
    end.
Proof.
  revert d0. induction l as [|x r IH]; intros d0; [reflexivity|].
  cbn [fold_left filter]. rewrite IH, dict_get_set.
  destruct (str_eqb_spec (first_char x) c) as [<-|Hne].
  - rewrite String.eqb_refl, last_opt_cons.
    destruct (last_opt (filter _ r)); reflexivity.
  - destruct (str_eqb_spec c (first_char x)); [congruence|reflexivity].
Qed.

(** C3 (counterexample).  [collide(brightness:int, bold:bool)] has two names
    starting with [b]; registering it under Switch mode succeeds, and dispatch
    reaches [KwargsFunction.parse], which reports the missing [brightness]
    because [-b] resolved to [bold]. *)
Lemma collide_registered_and_parsed :
  first_char "brightness" = first_char "bold" /\
  dict_get "collide" (Exposer_kwargs collide [])
    = Some (mk_entry KKwargs (FunctionWrapper collide)) /\
  snd (parse_args in_order (Exposer_kwargs collide []) ["prog.exe"; "-b"])
    = Err (PyoptError (MRequired ["brightness"])).
Proof. split; [reflexivity|]. split; reflexivity. Qed.

(** C3 (amended).  Registering a function under Switch ([Exposer.kwargs]) or
    Hybrid ([Exposer.mixed]) mode never fails and performs no first-letter
    check: the function is stored under its name whatever its parameters, and
    at parse time a short flag resolves to the last declared parameter having
    that first letter. *)
Theorem switch_registration_unchecked :
  forall f reg,
    dict_get (fn_name f) (Exposer_kwargs f reg)
      = Some (mk_entry KKwargs (FunctionWrapper f)) /\
    dict_get (fn_name f) (Exposer_mixed f reg)
      = Some (mk_entry KMixed (FunctionWrapper f)) /\
    forall c, dict_get c (short_to_name (FunctionWrapper f))
      = last_opt (filter (fun n => str_eqb (first_char n) c)
                         (arg_names (FunctionWrapper f))).
Proof.
  intros f reg. split; [|split].
  - unfold Exposer_kwargs, expose. rewrite dict_get_set, String.eqb_refl. reflexivity.
  - unfold Exposer_mixed, expose. rewrite dict_get_set, String.eqb_refl. reflexivity.
  - intros c. unfold short_to_name. rewrite short_to_name_fold.
    destruct (last_opt _); reflexivity.
Qed.

(** ** Name resolution in [KwargsFunction.parse] *)

Lemma substring_0_length (p : string) : substring 0 (String.length p) p = p.
Proof. induction p as [|c p IH]; simpl; congruence. Qed.


Lemma short_token_not_long (ch : ascii) (s : string) :
  ch <> "-"%char -> startswith (String "-" (String ch s)) "--" = false.
Proof.
  intros H. unfold startswith. cbn [prefix].
  destruct (ascii_dec "-" ch) as [E|_]; [congruence|reflexivity].
Qed.

Lemma resolve_short w stn d name (ch : ascii) :
  ch <> "-"%char ->
  kw_resolve w stn d name (String "-" (String ch EmptyString))
  = match dict_get (str1 ch) stn with
    | Some n => Ok (RName n)
    | None => Err (KeyError (str1 ch))
    end.
Proof.
  intros H. unfold kw_resolve. rewrite short_token_not_long by exact H. reflexivity.
Qed.



(** A token of the form [-xy...]: its characters are a boolean cluster. *)
Lemma kw_loop_cluster w stn d name argument rest :
  startswith argument "-" = true -> startswith argument "--" = false ->
  2 < String.length argument ->
  kw_loop w stn d name (argument :: rest)
  = match kw_cluster w stn d name (list_ascii_of_string (drop 1 argument)) with
    | Ok (d', name') => kw_loop w stn d' name' rest
    | Err e => Err e
    end.
Proof.
  intros H1 H2 H3. cbn [kw_loop]. unfold kw_resolve. rewrite H2, H1.
  destruct (String.length argument =? 2) eqn:E; [apply Nat.eqb_eq in E; lia|].
  apply Nat.ltb_lt in H3. rewrite H3.
  destruct (kw_cluster _ _ _ _ _) as [[d' name']|e]; reflexivity.
Qed.

Lemma kw_cluster_all_bool w stn cs : forall d name,
  (forall c, In c cs -> exists n, dict_get (str1 c) stn = Some n /\ mem n (booleans w) = true) ->
  exists d' name', kw_cluster w stn d name cs = Ok (d', name') /\
    forall k, dict_get k d'
      = if existsb (fun c => match dict_get (str1 c) stn with
                             | Some n => str_eqb k n
                             | None => false end) cs
        then Some (VBool true) else dict_get k d.
Proof.
  induction cs as [|c r IH]; intros d name Hall.
  - exists d, name. split; [reflexivity|]. intros k. reflexivity.
  - destruct (Hall c (or_introl eq_refl)) as [n [Hn Hb]].
    destruct (IH (dict_set n (VBool true) d) (Some n)) as [d' [name' [Hk Hd']]].
    { intros c' Hc'. apply Hall. right. exact Hc'. }
    exists d', name'. simpl. rewrite Hn, Hb. simpl. split; [exact Hk|].
    intros k. rewrite Hd', dict_get_set.
    destruct (str_eqb k n), (existsb _ r); reflexivity.
Qed.

Lemma kw_cluster_non_bool w stn cs : forall d name,
  (forall c, In c cs -> exists n, dict_get (str1 c) stn = Some n) ->
  (exists c n, In c cs /\ dict_get (str1 c) stn = Some n /\ mem n (booleans w) = false) ->
  exists c, In c cs /\ kw_cluster w stn d name cs = Err (PyoptError (MIllegalBool (str1 c))).
Proof.
  induction cs as [|c0 r IH]; intros d name Hres [c [n [Hin [Hn Hb]]]]; [destruct Hin|].
  destruct (Hres c0 (or_introl eq_refl)) as [n0 Hn0].
  simpl. rewrite Hn0.
  destruct (mem n0 (booleans w)) eqn:Hb0; simpl.
  - destruct Hin as [<-|Hin]; [congruence|].
    destruct (IH (dict_set n0 (VBool true) d) (Some n0)) as [c' [Hc' Hk]].
    + intros c'' H''. apply Hres. right. exact H''.
    + exists c, n. auto.
    + exists c'. split; [right; exact Hc'|exact Hk].
  - exists c0. split; [left; reflexivity|reflexivity].
Qed.

(** ** C4: unknown option names in Switch mode *)

(** C4.  In Switch mode an unknown long option [--xyz] raises
    [PyoptError("Illegal option 'xyz' given.")], but an unknown short flag
    [-x], alone or inside a cluster [-nx], fails on the lookup
    [short_to_name['x']] with [KeyError], which [run] does not catch.  In
    general a two-character flag whose letter starts no parameter raises
    [KeyError]. *)
Theorem switch_unknown_short_flag :
  kw_parse (FunctionWrapper bigfun) ["--xyz"] = Err (PyoptError (MIllegalOption "xyz")) /\
  kw_parse (FunctionWrapper bigfun) ["-x"] = Err (KeyError "x") /\
  kw_parse (FunctionWrapper bigfun) ["-nx"] = Err (KeyError "x") /\
  run in_order (Exposer_kwargs bigfun []) ["prog.exe"; "-x"] = ([], Raised (KeyError "x")) /\
  forall w d name (ch : ascii) rest,
    ch <> "-"%char -> dict_get (str1 ch) (short_to_name w) = None ->
    kw_loop w (short_to_name w) d name (String "-" (String ch EmptyString) :: rest)
    = Err (KeyError (str1 ch)).
Proof.
  split; [reflexivity|]. split; [reflexivity|]. split; [reflexivity|].
  split; [reflexivity|].
  intros w d name ch rest Hch Hget. cbn [kw_loop].
  rewrite resolve_short by exact Hch. rewrite Hget. reflexivity.
Qed.

Lemma switch_unknown_short_flag_witness :
  kw_loop (FunctionWrapper bigfun) (short_to_name (FunctionWrapper bigfun))
    (bools_false (FunctionWrapper bigfun)) None ["-x"] = Err (KeyError "x").
Proof.
  apply (proj2 (proj2 (proj2 (proj2 switch_unknown_short_flag)))).
  - discriminate.
  - reflexivity.
Defined.

(** ** C5: boolean clusters in Switch mode *)

(** C5.  In Switch mode a token [-xy...] (one hyphen, longer than 2) has each
    following character resolved through the first-letter map.  When all of
    them resolve to boolean parameters, every resolved parameter is set to
    [True] (and nothing else changes) before the scan goes on; when one of them
    resolves to a non-boolean parameter, parsing fails with the
    "given as boolean" [PyoptError] (IllegalBooleanCluster).  On
    [(nudge:bool, happy:bool)], [-nh] yields [{nudge: True, happy: True}]; with
    [happy:int] it fails on [h]. *)
Theorem switch_boolean_cluster :
  (forall w d name argument rest,
    let stn := short_to_name w in
    let cs := list_ascii_of_string (drop 1 argument) in
    startswith argument "-" = true -> startswith argument "--" = false ->
    2 < String.length argument ->
    (forall c, In c cs -> exists n, dict_get (str1 c) stn = Some n) ->
    ((forall c n, In c cs -> dict_get (str1 c) stn = Some n -> mem n (booleans w) = true) ->
     exists d' name',
       kw_loop w stn d name (argument :: rest) = kw_loop w stn d' name' rest /\
       forall k, dict_get k d'
         = if existsb (fun c => match dict_get (str1 c) stn with
                                | Some n => str_eqb k n
                                | None => false end) cs
           then Some (VBool true) else dict_get k d) /\
    ((exists c n, In c cs /\ dict_get (str1 c) stn = Some n /\ mem n (booleans w) = false) ->
     exists c, In c cs /\
       kw_loop w stn d name (argument :: rest) = Err (PyoptError (MIllegalBool (str1 c))))) /\
  kw_parse (FunctionWrapper flags) ["-nh"]
    = Ok ([], [("nudge", VBool true); ("happy", VBool true)]) /\
  kw_parse (FunctionWrapper flags_int) ["-nh"] = Err (PyoptError (MIllegalBool "h")).
Proof.
  split; [|split; reflexivity].
  intros w d name argument rest stn cs H1 H2 H3 Hres.
  rewrite (kw_loop_cluster w stn d name argument rest H1 H2 H3). fold cs.
  split.
  - intros Hb.
    destruct (kw_cluster_all_bool w stn cs d name) as [d' [name' [Hk Hd']]].
    { intros c Hc. destruct (Hres c Hc) as [n Hn]. exists n. split; [exact Hn|].
      exact (Hb c n Hc Hn). }
    exists d', name'. rewrite Hk. split; [reflexivity|exact Hd'].
  - intros Hnb.
    destruct (kw_cluster_non_bool w stn cs d name Hres Hnb) as [c [Hc Hk]].
    exists c. rewrite Hk. split; [exact Hc|reflexivity].
Qed.

Lemma switch_boolean_cluster_witness :
  exists d' name',
    kw_loop (FunctionWrapper flags) (short_to_name (FunctionWrapper flags))
      (bools_false (FunctionWrapper flags)) None ["-nh"]
    = kw_loop (FunctionWrapper flags) (short_to_name (FunctionWrapper flags)) d' name' [] /\
    forall k, dict_get k d'
      = if existsb (fun c => match dict_get (str1 c) (short_to_name (FunctionWrapper flags)) with
                             | Some n => str_eqb k n
                             | None => false end) (list_ascii_of_string (drop 1 "-nh"))
        then Some (VBool true) else dict_get k (bools_false (FunctionWrapper flags)).
Proof.
  apply (proj1 (proj1 switch_boolean_cluster (FunctionWrapper flags)
                  (bools_false (FunctionWrapper flags)) None "-nh" []
                  eq_refl eq_refl ltac:(simpl; lia)
                  ltac:(intros c [<-|[<-|[]]]; eexists; reflexivity))).
  intros c n [<-|[<-|[]]] Hn; injection Hn as <-; reflexivity.
Defined.

(** ** C6: Hybrid mode scans flags with [getopt] *)

Lemma drop_1_cons (a : ascii) (s : string) : drop 1 (String a s) = s.
Proof.
  unfold drop. cbn [String.length substring].
  replace (S (String.length s) - 1) with (String.length s) by lia.
  apply substring_0_length.
Qed.

Lemma getopt_attached_r (v : string) rest :
  v <> EmptyString ->
  Getopt.getopt (String "-" (String "r" v) :: rest)
    (mixed_shorts (FunctionWrapper roll_dice)) (mixed_longs (FunctionWrapper roll_dice))
  = Getopt.getopt_loop (mixed_shorts (FunctionWrapper roll_dice))
      (mixed_longs (FunctionWrapper roll_dice)) [("-r", v)] rest.
Proof.
  intros Hv. destruct v as [|c v']; [congruence|].
  unfold Getopt.getopt. cbn [Getopt.getopt_loop].
  change (startswith (String "-" (String "r" (String c v'))) "-") with true.
  change (str_eqb (String "-" (String "r" (String c v'))) "-") with false.
  change (str_eqb (String "-" (String "r" (String c v'))) "--") with false.
  rewrite short_token_not_long by discriminate.
  rewrite drop_1_cons. reflexivity.
Qed.

(** C6 (counterexample).  On [roll_dice], the flag token [-r2] binds
    [repetitions = 2] in Hybrid mode ([getopt] reads the attached value), but
    in Switch mode it is a boolean cluster and fails on the non-boolean [r]. *)
Lemma hybrid_switch_differ :
  mixed_parse (FunctionWrapper roll_dice) ["-r2"; "6"]
    = Ok ([VInt 6], [("repetitions", VInt 2)]) /\
  kw_parse (FunctionWrapper roll_dice) ["-r2"; "6"]
    = Err (PyoptError (MIllegalBool "r")).
Proof. split; reflexivity. Qed.

(** C6 (amended).  Hybrid mode delegates flag scanning to [getopt], whose
    resolution differs from Switch mode's: a short option may carry its value
    attached ([-r2]) and a long option may be given by a unique prefix of its
    name ([--rep]).  Switch mode rejects both: a token [-xv] with [x] the
    short flag of a non-boolean parameter fails as an illegal boolean cluster,
    and [--rep] is an unknown option. *)
Theorem hybrid_getopt_resolution :
  (forall v rest, v <> EmptyString ->
     Getopt.getopt (String "-" (String "r" v) :: rest)
       (mixed_shorts (FunctionWrapper roll_dice)) (mixed_longs (FunctionWrapper roll_dice))
     = Getopt.getopt_loop (mixed_shorts (FunctionWrapper roll_dice))
         (mixed_longs (FunctionWrapper roll_dice)) [("-r", v)] rest) /\
  mixed_parse (FunctionWrapper roll_dice) ["--rep"; "2"; "6"]
    = Ok ([VInt 6], [("repetitions", VInt 2)]) /\
  kw_parse (FunctionWrapper roll_dice) ["--rep"; "2"; "6"]
    = Err (PyoptError (MIllegalOption "rep")) /\
  (forall w d name p (ch : ascii) v rest,
     ch <> "-"%char -> v <> EmptyString ->
     dict_get (str1 ch) (short_to_name w) = Some p -> mem p (booleans w) = false ->
     kw_loop w (short_to_name w) d name (String "-" (String ch v) :: rest)
     = Err (PyoptError (MIllegalBool (str1 ch)))).
Proof.
  split; [exact getopt_attached_r|].
  split; [reflexivity|]. split; [reflexivity|].
  intros w d name p ch v rest Hch Hv Hget Hb.
  destruct v as [|c v']; [congruence|].
  rewrite kw_loop_cluster.
  - rewrite drop_1_cons. cbn [list_ascii_of_string kw_cluster].
    rewrite Hget, Hb. reflexivity.
  - reflexivity.
  - apply short_token_not_long. exact Hch.
  - simpl. lia.
Qed.

Lemma hybrid_getopt_resolution_witness :
  Getopt.getopt ["-r2"; "6"]
    (mixed_shorts (FunctionWrapper roll_dice)) (mixed_longs (FunctionWrapper roll_dice))
  = Getopt.getopt_loop (mixed_shorts (FunctionWrapper roll_dice))
      (mixed_longs (FunctionWrapper roll_dice)) [("-r", "2")] ["6"] /\
  kw_loop (FunctionWrapper roll_dice) (short_to_name (FunctionWrapper roll_dice)) [] None
    ["-r2"; "6"] = Err (PyoptError (MIllegalBool "r")).
Proof.
  split.
  - apply (proj1 hybrid_getopt_resolution "2" ["6"]). discriminate.
  - apply (proj2 (proj2 (proj2 hybrid_getopt_resolution)) (FunctionWrapper roll_dice)
             [] None "repetitions" "r"%char "2" ["6"]); [discriminate|discriminate| |];
      reflexivity.
Defined.

(** ** C7: which failures [run] turns into a message *)

(** C7 (counterexample).  With no function registered, [parse_args] raises
    [NotImplementedError], which [run] does not catch. *)
Lemma run_empty_registry_escapes :
  run in_order [] ["prog.exe"]
  = ([], Raised (NotImplementedError "No functions were decorated for command-line usage.")).
Proof. reflexivity. Qed.

(** C7 (amended).  [run] catches [PrintHelp], [ValueError] and [PyoptError]
    raised while dispatching and binding: it prints the help payload, or the
    message followed by the hint "Run with ? or -h for more help.", and
    returns normally.  With an empty registry [parse_args] raises
    [NotImplementedError], which [run] does not catch. *)
Theorem run_catches_pyopt_errors :
  (forall set_iter prog rest,
     run set_iter [] (prog :: rest)
     = ([], Raised (NotImplementedError
                     "No functions were decorated for command-line usage."))) /\
  (forall set_iter reg argv out,
     (forall p, parse_args set_iter reg argv = (out, Err (PrintHelp p)) ->
        run set_iter reg argv
        = (py_append out (match p with Some s => s | None => "None" end), Handled)) /\
     (forall m, parse_args set_iter reg argv = (out, Err (ValueError m)) ->
        run set_iter reg argv = (py_append out (m ++ ". " ++ HINT), Handled)) /\
     (forall m, parse_args set_iter reg argv = (out, Err (PyoptError m)) ->
        run set_iter reg argv = (py_append out (msg_text m ++ " " ++ HINT), Handled))).
Proof.
  split; [reflexivity|].
  intros set_iter reg argv out.
  split; [|split]; intros x H; unfold run; rewrite H; reflexivity.
Qed.

Lemma run_catches_pyopt_errors_witness :
  run in_order (Exposer_mixed roll_dice (Exposer_kwargs bigfun [])) ["prog.exe"; "nope"]
  = (py_append [] (msg_text (MUnknownFunction "nope") ++ " " ++ HINT), Handled).
Proof.
  apply (proj2 (proj2 (proj2 run_catches_pyopt_errors in_order
                             (Exposer_mixed roll_dice (Exposer_kwargs bigfun []))
                             ["prog.exe"; "nope"] []))).
  reflexivity.
Defined.

(** ** C8: single-command help *)

(** C8.  With exactly one command registered and a help token as first
    argument, [parse_args] prints the usage through [print_usage_single_func]
    and raises [PrintHelp] carrying that function's return value, [None]: the
    usage text is written out, not carried by the exception, and [run] then
    prints "None". *)
Theorem single_help_payload_none :
  (forall set_iter name e prog h rest,
     mem h HELP_SET = true ->
     parse_args set_iter [(name, e)] (prog :: h :: rest)
     = (("Usage: " ++ basename prog ++ " " ++ parameters_repr set_iter e)
          :: match fn_doc (function (e_wrapper e)) with
             | Some doc => [indent (strip doc) 1]
             | None => []
             end,
        Err (PrintHelp None))) /\
  run in_order (Exposer_mixed roll_dice []) ["prog.exe"; "-h"]
  = (["Usage: prog.exe -n number_of_faces -r repetitions  "; "None"], Handled).
Proof.
  split; [|reflexivity].
  intros set_iter name e prog h rest Hh.
  unfold parse_args. rewrite Hh. unfold print_usage_single_func.
  destruct (fn_doc (function (e_wrapper e))); reflexivity.
Qed.

Lemma single_help_payload_none_witness :
  parse_args in_order (Exposer_mixed roll_dice []) ["prog.exe"; "-h"]
  = (["Usage: prog.exe -n number_of_faces -r repetitions  "], Err (PrintHelp None)).
Proof.
  apply (proj1 single_help_payload_none in_order "roll_dice"
           (mk_entry KMixed (FunctionWrapper roll_dice)) "prog.exe" "-h" []).
  reflexivity.
Defined.

(** ** C9: dispatch among several commands *)

Lemma print_all_ok l : print_all l = (l, Ok tt).
Proof.
  induction l as [|s r IH]; [reflexivity|].
  cbn [print_all]. unfold io_bind, print. rewrite IH. reflexivity.
Qed.

Lemma give_help_raises_help {B : Type} set_iter reg script cmd_args :
  exists out p,
    io_bind (give_help set_iter reg script cmd_args) (fun p => @raise B (PrintHelp p))
    = (out, Err (PrintHelp p)).
Proof.
  unfold give_help. destruct (nth_error cmd_args 2) as [func_name|].
  - destruct (dict_get func_name reg); eexists; eexists; reflexivity.
  - unfold print_complete_usage, io_bind at 2 3 4. simpl.
    rewrite print_all_ok. eexists; eexists; reflexivity.
Qed.

(** C9.  With two or more commands registered: a help token as first argument
    raises [PrintHelp]; a first argument equal (exact string equality) to a
    registered name selects that command and binds the arguments after it
    with its strategy; any other first argument raises
    [PyoptError("Unkown function '<name>'.")] (UnknownCommand). *)
Theorem multi_dispatch :
  (forall set_iter reg prog t rest,
     2 <= List.length reg ->
     (mem t HELP_SET = true ->
        exists out p, parse_args set_iter reg (prog :: t :: rest) = (out, Err (PrintHelp p))) /\
     (mem t HELP_SET = false -> dict_get t reg = None ->
        parse_args set_iter reg (prog :: t :: rest)
        = ([], Err (PyoptError (MUnknownFunction t)))) /\
     (forall e, mem t HELP_SET = false -> dict_get t reg = Some e ->
        parse_args set_iter reg (prog :: t :: rest)
        = ([], match parse e rest with
               | Ok (args, kwargs) => Ok (e, args, kwargs)
               | Err x => Err x
               end))) /\
  snd (parse_args in_order (Exposer_mixed roll_dice (Exposer_kwargs bigfun []))
         ["prog.exe"; "unknown_cmd"])
  = Err (PyoptError (MUnknownFunction "unknown_cmd")).
Proof.
  split; [|reflexivity].
  intros set_iter reg prog t rest Hlen.
  destruct reg as [|[k1 e1] [|[k2 e2] r]]; simpl in Hlen; try lia.
  split; [|split].
  - intros Hh. unfold parse_args. rewrite Hh. apply give_help_raises_help.
  - intros Hh Hg. unfold parse_args. rewrite Hh, Hg. reflexivity.
  - intros e Hh Hg. unfold parse_args. rewrite Hh, Hg. cbn [skipn].
    destruct (parse e rest) as [[args kw]|x]; reflexivity.
Qed.

Lemma multi_dispatch_witness :
  parse_args in_order (Exposer_mixed roll_dice (Exposer_kwargs bigfun []))
    ["prog.exe"; "roll_dice"; "6"; "2"]
  = ([], match parse (mk_entry KMixed (FunctionWrapper roll_dice)) ["6"; "2"] with
         | Ok (args, kwargs) => Ok (mk_entry KMixed (FunctionWrapper roll_dice), args, kwargs)
         | Err x => Err x
         end).
Proof.
  apply (proj1 multi_dispatch in_order (Exposer_mixed roll_dice (Exposer_kwargs bigfun []))
           "prog.exe" "roll_dice" ["6"; "2"] ltac:(simpl; lia)); reflexivity.
Defined.

(** * Further properties of the code *)

(** ** Helper lemmas *)

Lemma mem_In x l : mem x l = true <-> In x l.
Proof.
  unfold mem. rewrite existsb_exists. split.
  - intros [y [Hy Heq]]. apply String.eqb_eq in Heq. subst. exact Hy.
  - intros H. exists x. split; [exact H|apply String.eqb_refl].
Qed.

Lemma mem_false_notin x l : mem x l = false <-> ~ In x l.
Proof.
  rewrite <- mem_In. destruct (mem x l); split; congruence.
Qed.

Lemma dict_mem_In {A} k (d : dict A) : dict_mem k d = true <-> In k (map fst d).
Proof.
  unfold dict_mem. induction d as [|[k' v'] r IH]; simpl; [split; [discriminate|tauto]|].
  destruct (str_eqb_spec k k') as [<-|Hne].
  - split; [left; reflexivity|reflexivity].
  - rewrite IH. split; [tauto|intros [H|H]; [congruence|exact H]].
Qed.

Lemma dict_set_keys {A} k (v : A) d :
  map fst (dict_set k v d) = if dict_mem k d then map fst d else app (map fst d) [k].
Proof.
  unfold dict_mem. induction d as [|[k' v'] r IH]; [reflexivity|].
  cbn [dict_set dict_get]. destruct (str_eqb_spec k k') as [<-|Hne]; [reflexivity|].
  cbn [map fst]. rewrite IH. destruct (dict_get k r); reflexivity.
Qed.

Lemma NoDup_snoc {A} (l : list A) x : NoDup l -> ~ In x l -> NoDup (app l [x]).
Proof.
  induction l as [|y r IH]; simpl; intros Hnd Hx.
  - constructor; [tauto|constructor].
  - inversion Hnd as [|? ? Hy Hr]; subst. constructor.
    + rewrite in_app_iff. simpl. intros [H|[H|H]]; [tauto|subst; tauto|tauto].
    + apply IH; tauto.
Qed.

Lemma dict_set_nodup {A} k (v : A) d :
  NoDup (map fst d) -> NoDup (map fst (dict_set k v d)).
Proof.
  intros H. rewrite dict_set_keys. destruct (dict_mem k d) eqn:E; [exact H|].
  apply NoDup_snoc; [exact H|]. intros Hin. apply dict_mem_In in Hin. congruence.
Qed.

Lemma fold_expose_get n l d :
  dict_get n (fold_left (fun d p => expose (fst p) (snd p) d) l d)
  = match last_opt (filter (fun p => str_eqb (fn_name (snd p)) n) l) with
    | Some p => Some (mk_entry (fst p) (FunctionWrapper (snd p)))
    | None => dict_get n d
    end.
Proof.
  revert d. induction l as [|x r IH]; intros d; [reflexivity|].
  cbn [fold_left filter]. rewrite IH. unfold expose. rewrite dict_get_set.
  destruct (str_eqb_spec (fn_name (snd x)) n) as [<-|Hne].
  - rewrite String.eqb_refl, last_opt_cons.
    destruct (last_opt (filter _ r)); reflexivity.
  - destruct (str_eqb_spec n (fn_name (snd x))); [congruence|reflexivity].
Qed.

Lemma fold_expose_nodup l d :
  NoDup (map fst d) -> NoDup (map fst (fold_left (fun d p => expose (fst p) (snd p) d) l d)).
Proof.
  revert d. induction l as [|x r IH]; intros d H; [exact H|].
  cbn [fold_left]. apply IH. apply dict_set_nodup. exact H.
Qed.

Lemma fold_left_map_py {A B C} (f : A -> B -> A) (g : C -> B) l a :
  fold_left f (map g l) a = fold_left (fun x y => f x (g y)) l a.
Proof. revert a. induction l as [|y r IH]; intros a; [reflexivity|apply IH]. Qed.

Lemma Exposer_init_fold kw pos mixed :
  Exposer_init kw pos mixed
  = fold_left (fun d p => expose (fst p) (snd p) d) (init_order kw pos mixed) [].
Proof.
  unfold Exposer_init, init_order. rewrite !fold_left_app, !fold_left_map_py. reflexivity.
Qed.

Lemma io_bind_raise {A B} (m : io A) (k : A -> exn) :
  exists out e, io_bind m (fun a => @raise B (k a)) = (out, Err e).
Proof.
  destruct m as [o [a|e]]; simpl.
  - eexists; eexists; reflexivity.
  - eexists; eexists; reflexivity.
Qed.

Lemma print_complete_usage_eq set_iter reg script :
  print_complete_usage set_iter reg script
  = (complete_usage_lines set_iter reg script, Ok None).
Proof.
  unfold print_complete_usage, io_bind at 1 2 3. simpl. rewrite print_all_ok.
  simpl. rewrite app_nil_r. reflexivity.
Qed.

(** ** Registration *)

(** X2: [Exposer(kw_funcs_list, pos_funcs_list, mixed_funcs_list)] registers the
    three lists in this order: the entry under a name is the wrapper of the
    last function of that name, with the class of its list, and the registry
    names are unique. *)
Theorem Exposer_init_lookup :
  forall kw pos mixed n,
    dict_get n (Exposer_init kw pos mixed)
    = option_map (fun p => mk_entry (fst p) (FunctionWrapper (snd p)))
        (last_opt (filter (fun p => str_eqb (fn_name (snd p)) n) (init_order kw pos mixed))) /\
    NoDup (map fst (Exposer_init kw pos mixed)).
Proof.
  intros kw pos mixed n. rewrite Exposer_init_fold. split.
  - rewrite fold_expose_get. destruct (last_opt _); reflexivity.
  - apply fold_expose_nodup. constructor.
Qed.

(** ** Dispatch, help and [run] *)

(** X3: [run] calls a function only after a successful parse, and prints
    nothing on that path: the function is the only registered one, or the one
    registered under [argv[1]], and its arguments are the ones its parser
    returned for [argv[1:]] (one command) or [argv[2:]] (several). *)
Theorem run_called :
  forall set_iter reg argv out f args kwargs,
    run set_iter reg argv = (out, Called f args kwargs) ->
    out = [] /\
    exists e,
      f = function (e_wrapper e) /\
      match reg with
      | [(_, e1)] => e = e1 /\ parse e (skipn 1 argv) = Ok (args, kwargs)
      | _ => (exists t, nth_error argv 1 = Some t /\ dict_get t reg = Some e) /\
             parse e (skipn 2 argv) = Ok (args, kwargs)
      end.
Proof.
  intros set_iter reg argv out f args kwargs H. unfold run in H.
  destruct (parse_args set_iter reg argv) as [o r] eqn:E.
  destruct r as [[[e a] kw]|x].
  2:{ destruct x; try discriminate H. }
  injection H as <- <- <- <-.
  unfold parse_args in E. destruct argv as [|arg0 raw]; [discriminate E|].
  destruct reg as [|[k1 e1] [|[k2 e2] r]]; [discriminate E| |].
  - destruct raw as [|t rest].
    + destruct (parse e1 []) as [[a1 kw1]|x] eqn:P; simpl in E; [|discriminate E].
      injection E as <- <- <- <-. split; [reflexivity|]. exists e1. auto.
    + destruct (mem t HELP_SET).
      * destruct (io_bind_raise (B := entry * list value * dict value)
                    (print_usage_single_func set_iter (basename arg0) e1) PrintHelp)
          as [o' [x Hx]].
        rewrite Hx in E. discriminate E.
      * destruct (parse e1 (t :: rest)) as [[a1 kw1]|x] eqn:P; simpl in E; [|discriminate E].
        injection E as <- <- <- <-. split; [reflexivity|]. exists e1. auto.
  - destruct raw as [|t rest].
    + rewrite print_complete_usage_eq in E. discriminate E.
    + destruct (mem t HELP_SET).
      * destruct (io_bind_raise (B := entry * list value * dict value)
                    (give_help set_iter ((k1, e1) :: (k2, e2) :: r) (basename arg0)
                       (arg0 :: t :: rest)) PrintHelp) as [o' [x Hx]].
        rewrite Hx in E. discriminate E.
      * destruct (dict_get t ((k1, e1) :: (k2, e2) :: r)) as [e'|] eqn:G; [|discriminate E].
        cbn [skipn] in E.
        destruct (parse e' rest) as [[a1 kw1]|x] eqn:P; simpl in E; [|discriminate E].
        injection E as <- <- <- <-. split; [reflexivity|]. exists e'.
        split; [reflexivity|]. split; [|exact P]. exists t. split; [reflexivity|exact G].
Qed.

Lemma run_called_witness :
  [] = @nil string /\
  exists e,
    roll_dice = function (e_wrapper e) /\
    e = mk_entry KMixed (FunctionWrapper roll_dice) /\
    parse e (skipn 1 ["prog.exe"; "6"; "2"]) = Ok ([VInt 6; VInt 2], []).
Proof.
  apply (run_called in_order (Exposer_mixed roll_dice []) ["prog.exe"; "6"; "2"]
           [] roll_dice [VInt 6; VInt 2] []).
  reflexivity.
Defined.

(** X4: with one command registered, [argv[1:]] is handed whole to its parser
    (no command name is expected) unless [argv[1]] is a help token. *)
Theorem single_dispatch :
  forall set_iter name e prog raw,
    match raw with t :: _ => mem t HELP_SET = false | [] => True end ->
    parse_args set_iter [(name, e)] (prog :: raw)
    = ([], match parse e raw with
           | Ok (args, kwargs) => Ok (e, args, kwargs)
           | Err x => Err x
           end).
Proof.
  intros set_iter name e prog raw H. unfold parse_args.
  destruct raw as [|t rest].
  - destruct (parse e []) as [[a kw]|x]; reflexivity.
  - rewrite H. destruct (parse e (t :: rest)) as [[a kw]|x]; reflexivity.
Qed.

Lemma single_dispatch_witness :
  parse_args in_order [("roll_dice", mk_entry KArgs (FunctionWrapper roll_dice))]
    ["prog.exe"; "6"; "-h"]
  = ([], match parse (mk_entry KArgs (FunctionWrapper roll_dice)) ["6"; "-h"] with
         | Ok (args, kwargs) => Ok (mk_entry KArgs (FunctionWrapper roll_dice), args, kwargs)
         | Err x => Err x
         end).
Proof.
  apply (single_dispatch in_order "roll_dice" (mk_entry KArgs (FunctionWrapper roll_dice))
           "prog.exe" ["6"; "-h"]).
  reflexivity.
Defined.

(** X5: with several commands registered and no command given, or only a help
    token, [run] prints the complete usage (the header line with the script's
    base name, "Available functions are:" and every command's usage in
    registration order) and then "None", the payload of the [PrintHelp] that
    [print_complete_usage] returns into. *)
Theorem multi_complete_usage :
  forall set_iter reg prog h,
    2 <= List.length reg ->
    run set_iter reg [prog]
      = (app (complete_usage_lines set_iter reg (basename prog)) ["None"], Handled) /\
    (mem h HELP_SET = true ->
     run set_iter reg [prog; h]
       = (app (complete_usage_lines set_iter reg (basename prog)) ["None"], Handled)).
Proof.
  intros set_iter reg prog h Hlen.
  destruct reg as [|[k1 e1] [|[k2 e2] r]]; simpl in Hlen; try lia.
  split.
  - unfold run, parse_args. rewrite print_complete_usage_eq.
    unfold io_bind, raise, py_append. rewrite app_nil_r. reflexivity.
  - intros Hh. unfold run, parse_args. rewrite Hh. unfold give_help. cbn [nth_error].
    rewrite print_complete_usage_eq.
    unfold io_bind, raise, py_append. rewrite app_nil_r. reflexivity.
Qed.

Lemma multi_complete_usage_witness :
  run in_order (Exposer_mixed roll_dice (Exposer_kwargs bigfun [])) ["dir/prog.exe"; "?"]
  = (app (complete_usage_lines in_order (Exposer_mixed roll_dice (Exposer_kwargs bigfun []))
            "prog.exe") ["None"], Handled).
Proof.
  apply (proj2 (multi_complete_usage in_order (Exposer_mixed roll_dice (Exposer_kwargs bigfun []))
                  "dir/prog.exe" "?" ltac:(simpl; lia))).
  reflexivity.
Defined.

(** X6: with several commands registered, [prog <help> name ...] prints only
    the usage of the command [name] when it is registered, and only "None"
    when it is not ([give_help] returns [None] without printing). *)
Theorem multi_help_command :
  forall set_iter reg prog h name rest,
    2 <= List.length reg -> mem h HELP_SET = true ->
    run set_iter reg (prog :: h :: name :: rest)
    = (match dict_get name reg with
       | Some e => [get_usage set_iter e]
       | None => ["None"]
       end, Handled).
Proof.
  intros set_iter reg prog h name rest Hlen Hh.
  destruct reg as [|[k1 e1] [|[k2 e2] r]]; simpl in Hlen; try lia.
  unfold run, parse_args. rewrite Hh. unfold give_help. cbn [nth_error].
  destruct (dict_get name _); reflexivity.
Qed.

Lemma multi_help_command_witness :
  run in_order (Exposer_mixed roll_dice (Exposer_kwargs bigfun []))
    ["prog.exe"; "-h"; "nothing"] = (["None"], Handled).
Proof.
  apply (multi_help_command in_order (Exposer_mixed roll_dice (Exposer_kwargs bigfun []))
           "prog.exe" "-h" "nothing" []); [simpl; lia|reflexivity].
Defined.

(** ** [FunctionWrapper.__init__] *)

Lemma filter_all_true {A} (p : A -> bool) l :
  (forall x, In x l -> p x = true) -> filter p l = l.
Proof.
  induction l as [|x r IH]; simpl; intros H; [reflexivity|].
  rewrite (H x (or_introl eq_refl)). f_equal. apply IH. intros y Hy. apply H. right. exact Hy.
Qed.

Lemma filter_nil_false {A} (p : A -> bool) l :
  filter p l = [] -> forall x, In x l -> p x = false.
Proof.
  induction l as [|y r IH]; simpl; intros H x Hx; [contradiction|].
  destruct (p y) eqn:Py; [discriminate|].
  destruct Hx as [<-|Hx]; [exact Py|apply IH; assumption].
Qed.

Lemma filter_length_split {A} (p : A -> bool) l :
  List.length l = List.length (filter (fun x => negb (p x)) l) + List.length (filter p l).
Proof. induction l as [|x r IH]; simpl; [reflexivity|]. destruct (p x); simpl; lia. Qed.

Lemma In_firstn_nth {A} (l : list A) : forall i k a,
  NoDup l -> nth_error l i = Some a -> (In a (firstn k l) <-> i < k).
Proof.
  induction l as [|x r IH]; intros i k a Hnd Hi; [destruct i; discriminate|].
  inversion Hnd as [|? ? Hx Hr]; subst.
  destruct i as [|i]; simpl in Hi.
  - injection Hi as <-. destruct k as [|k]; simpl; [split; [contradiction|lia]|].
    split; [lia|tauto].
  - assert (Ha : In a r) by (eapply nth_error_In; exact Hi).
    destruct k as [|k]; simpl; [split; [contradiction|lia]|].
    rewrite (IH i k a Hr Hi). split.
    + intros [->|H]; [contradiction|lia].
    + intros H. right. lia.
Qed.

Lemma wrapper_booleans_In f b :
  In b (booleans (FunctionWrapper f))
  <-> In b (arg_names (FunctionWrapper f)) /\ cast_of (FunctionWrapper f) b = Ok CBool.
Proof.
  unfold FunctionWrapper, cast_of. cbn [booleans arg_names casts]. rewrite filter_In.
  destruct (dict_get b _) as [c|].
  - destruct c; simpl; split; intros [H1 H2]; try discriminate; auto.
  - split; intros [_ H]; discriminate.
Qed.

Lemma wrapper_required_In f a :
  In a (required (FunctionWrapper f))
  <-> In a (firstn (needed_args (FunctionWrapper f)) (arg_names (FunctionWrapper f)))
      /\ ~ In a (booleans (FunctionWrapper f)).
Proof.
  unfold FunctionWrapper. cbn [required needed_args arg_names booleans].
  rewrite filter_In, <- mem_false_notin.
  destruct (mem a _); simpl; split; intros [H1 H2]; try discriminate; auto.
Qed.

Lemma wrapper_optional_In f a :
  In a (optional (FunctionWrapper f))
  <-> In a (arg_names (FunctionWrapper f)) /\ ~ In a (required (FunctionWrapper f)).
Proof.
  change (optional (FunctionWrapper f))
    with (filter (fun a => negb (mem a (required (FunctionWrapper f))))
                 (arg_names (FunctionWrapper f))).
  rewrite filter_In, <- mem_false_notin.
  destruct (mem a _); simpl; split; intros [H1 H2]; try discriminate; auto.
Qed.

(** X7: for a function whose parameter names are distinct, the parameter at
    position [i] is required exactly when it has no default
    ([i < needed_args]) and is not annotated [bool]; every other parameter
    (defaulted, or boolean with or without a default) is optional. *)
Theorem wrapper_required_optional :
  forall f i a,
    let w := FunctionWrapper f in
    NoDup (arg_names w) -> nth_error (arg_names w) i = Some a ->
    (In a (required w) <-> i < needed_args w /\ cast_of w a <> Ok CBool) /\
    (In a (optional w) <-> ~ (i < needed_args w /\ cast_of w a <> Ok CBool)).
Proof.
  intros f i a w Hnd Hi. unfold w in *.
  assert (Ha : In a (arg_names (FunctionWrapper f))) by (eapply nth_error_In; exact Hi).
  assert (Hreq : In a (required (FunctionWrapper f))
                 <-> i < needed_args (FunctionWrapper f)
                     /\ cast_of (FunctionWrapper f) a <> Ok CBool).
  { rewrite wrapper_required_In, wrapper_booleans_In.
    rewrite (In_firstn_nth _ i _ a Hnd Hi). tauto. }
  split; [exact Hreq|]. rewrite wrapper_optional_In, Hreq. tauto.
Qed.

Lemma wrapper_required_optional_witness :
  NoDup (arg_names (FunctionWrapper bigfun)) /\
  nth_error (arg_names (FunctionWrapper bigfun)) 1 = Some "nudge" /\
  (In "nudge" (optional (FunctionWrapper bigfun))
   <-> ~ (1 < needed_args (FunctionWrapper bigfun)
          /\ cast_of (FunctionWrapper bigfun) "nudge" <> Ok CBool)).
Proof.
  assert (Hnd : NoDup (arg_names (FunctionWrapper bigfun))).
  { simpl. repeat (apply NoDup_cons; [simpl; intuition discriminate|]).
    apply NoDup_nil. }
  split; [exact Hnd|]. split; [reflexivity|].
  exact (proj2 (wrapper_required_optional bigfun 1 "nudge" Hnd eq_refl)).
Defined.

(** X8: [needed_args] (the minimum token count of [ArgsFunction.parse]) counts
    the required parameters plus the booleans without a default: a boolean
    parameter without default is not required, yet still takes a positional
    token. *)
Theorem needed_args_counts_booleans :
  forall f,
    let w := FunctionWrapper f in
    needed_args w
    = List.length (required w)
      + List.length (filter (fun a => mem a (booleans w)) (firstn (needed_args w) (arg_names w))).
Proof.
  intros f w. unfold w, FunctionWrapper. cbn [required needed_args arg_names booleans].
  match goal with
  | |- ?K = List.length (filter _ (firstn _ ?names)) + List.length (filter ?p _) =>
      transitivity (List.length (firstn K names));
      [symmetry; apply firstn_length_le; lia|apply (filter_length_split p)]
  end.
Qed.

(** ** [KwargsFunction.parse] *)

Lemma fold_set_get {A} x l (v : A) d0 :
  dict_get x (fold_left (fun d n => dict_set n v d) l d0)
  = if mem x l then Some v else dict_get x d0.
Proof.
  revert d0. induction l as [|n r IH]; intros d0; [reflexivity|].
  cbn [fold_left]. rewrite IH, dict_get_set. unfold mem. cbn [existsb].
  destruct (str_eqb x n), (existsb (str_eqb x) r); reflexivity.
Qed.

Lemma bools_false_get w x :
  dict_get x (bools_false w) = if mem x (booleans w) then Some (VBool false) else None.
Proof. unfold bools_false. rewrite fold_set_get. reflexivity. Qed.

Lemma last_opt_In {A} (l : list A) x : last_opt l = Some x -> In x l.
Proof.
  induction l as [|y r IH]; [discriminate|].
  rewrite last_opt_cons. destruct (last_opt r) as [z|] eqn:E.
  - intros H. injection H as <-. right. apply IH. reflexivity.
  - intros H. injection H as <-. left. reflexivity.
Qed.

Lemma short_to_name_In w k v :
  dict_get k (short_to_name w) = Some v -> In v (arg_names w).
Proof.
  unfold short_to_name. rewrite short_to_name_fold.
  destruct (last_opt _) as [n|] eqn:E; [|discriminate].
  intros H. injection H as <-. apply last_opt_In in E. apply filter_In in E. tauto.
Qed.

Lemma wrapper_required_not_bool f a :
  In a (required (FunctionWrapper f)) -> mem a (booleans (FunctionWrapper f)) = false.
Proof. rewrite wrapper_required_In, mem_false_notin. tauto. Qed.

(** Setting a declared name keeps the two invariants of [args_dict]. *)
Lemma kw_inv_set w d n v :
  In n (arg_names w) ->
  (In n (booleans w) -> exists bv, v = VBool bv) ->
  (forall k, dict_mem k d = true -> In k (arg_names w)) ->
  (forall b, In b (booleans w) -> exists bv, dict_get b d = Some (VBool bv)) ->
  (forall k, dict_mem k (dict_set n v d) = true -> In k (arg_names w)) /\
  (forall b, In b (booleans w) -> exists bv, dict_get b (dict_set n v d) = Some (VBool bv)).
Proof.
  intros Hn Hv Hk Hb. split.
  - intros k. rewrite dict_mem_set. destruct (str_eqb_spec k n) as [->|_]; [auto|apply Hk].
  - intros b Hin. rewrite dict_get_set. destruct (str_eqb_spec b n) as [->|_]; [|auto].
    destruct (Hv Hin) as [bv ->]. exists bv. reflexivity.
Qed.

Lemma kw_cluster_inv w stn cs : forall d name d' name',
  (forall k v, dict_get k stn = Some v -> In v (arg_names w)) ->
  (forall k, dict_mem k d = true -> In k (arg_names w)) ->
  (forall b, In b (booleans w) -> exists bv, dict_get b d = Some (VBool bv)) ->
  kw_cluster w stn d name cs = Ok (d', name') ->
  (forall k, dict_mem k d' = true -> In k (arg_names w)) /\
  (forall b, In b (booleans w) -> exists bv, dict_get b d' = Some (VBool bv)).
Proof.
  induction cs as [|c r IH]; intros d name d' name' Hstn Hk Hb H; cbn [kw_cluster] in H.
  - injection H as <- _. auto.
  - destruct (dict_get (str1 c) stn) as [n|] eqn:G; [|discriminate].
    destruct (negb (mem n (booleans w))); [discriminate|].
    destruct (kw_inv_set w d n (VBool true)) as [Hk' Hb'];
      [eapply Hstn; exact G|intros _; exists true; reflexivity|exact Hk|exact Hb|].
    eapply IH; [exact Hstn|exact Hk'|exact Hb'|exact H].
Qed.

Lemma kw_resolve_cluster w stn d name argument d0 n0 :
  kw_resolve w stn d name argument = Ok (RCluster d0 n0) ->
  exists cs, kw_cluster w stn d name cs = Ok (d0, n0).
Proof.
  unfold kw_resolve.
  destruct (startswith argument "--"); [discriminate|].
  destruct (startswith argument "-"); [|discriminate].
  destruct (String.length argument =? 2).
  { destruct (dict_get _ stn); discriminate. }
  destruct (2 <? String.length argument).
  - intros H. bind_ok H. injection H as <- <-. exists (list_ascii_of_string (drop 1 argument)).
    rewrite E. destruct a; reflexivity.
  - destruct name; discriminate.
Qed.

Lemma kw_loop_inv w stn :
  (forall k v, dict_get k stn = Some v -> In v (arg_names w)) ->
  (forall b, In b (booleans w) -> cast_of w b = Ok CBool) ->
  forall len raw, List.length raw <= len -> forall d name d',
  (forall k, dict_mem k d = true -> In k (arg_names w)) ->
  (forall b, In b (booleans w) -> exists bv, dict_get b d = Some (VBool bv)) ->
  kw_loop w stn d name raw = Ok d' ->
  (forall k, dict_mem k d' = true -> In k (arg_names w)) /\
  (forall b, In b (booleans w) -> exists bv, dict_get b d' = Some (VBool bv)).
Proof.
  intros Hstn Hbool len. induction len as [|len IH];
    intros raw Hlen d name d' Hk Hb H; destruct raw as [|argument rest].
  1,3: cbn [kw_loop] in H; injection H as <-; auto.
  1: simpl in Hlen; lia.
  simpl in Hlen. cbn [kw_loop] in H.
  destruct (kw_resolve w stn d name argument) as [r|e] eqn:R; simpl in H; [|discriminate].
  destruct r as [n|d0 n0].
  - destruct (mem n (arg_names w)) eqn:Hm; simpl in H; [|discriminate].
    apply mem_In in Hm.
    destruct (cast_of w n) as [c|e] eqn:Ec; simpl in H; [|discriminate].
    destruct (is_bool_caster c) eqn:Hc.
    + destruct (kw_inv_set w d n (VBool true)) as [Hk' Hb'];
        [exact Hm|intros _; exists true; reflexivity|exact Hk|exact Hb|].
      eapply IH; [|exact Hk'|exact Hb'|exact H]. lia.
    + destruct rest as [|v rest']; [discriminate|].
      destruct (apply_cast c v) as [x|e] eqn:Ex; simpl in H; [|discriminate].
      destruct (kw_inv_set w d n x) as [Hk' Hb'];
        [exact Hm| |exact Hk|exact Hb|].
      { intros Hin. apply Hbool in Hin. rewrite Hin in Ec. injection Ec as <-.
        discriminate Hc. }
      eapply IH; [|exact Hk'|exact Hb'|exact H]. simpl in Hlen. lia.
  - apply kw_resolve_cluster in R as [cs Hcs].
    destruct (kw_cluster_inv w stn cs d name d0 n0 Hstn Hk Hb Hcs) as [Hk' Hb'].
    eapply IH; [|exact Hk'|exact Hb'|exact H]. lia.
Qed.

(** X9: with no tokens, Switch mode binds every boolean parameter to [False]
    and nothing else, and fails listing all the required parameters when
    there are any. *)
Theorem kw_parse_no_tokens :
  forall f,
    let w := FunctionWrapper f in
    kw_parse w []
    = match required w with
      | [] => Ok ([], bools_false w)
      | _ => Err (PyoptError (MRequired (required w)))
      end /\
    (forall x, dict_get x (bools_false w)
       = if mem x (booleans w) then Some (VBool false) else None).
Proof.
  intros f w. split; [|intros x; apply bools_false_get].
  unfold kw_parse. cbn [kw_loop bind].
  rewrite filter_all_true.
  - destruct (required w); reflexivity.
  - intros a Ha. unfold dict_mem. rewrite bools_false_get.
    unfold w in *. rewrite (wrapper_required_not_bool f a Ha). reflexivity.
Qed.

(** X10: a successful Switch-mode parse returns no positional argument and a
    map whose keys are all declared parameters, in which every boolean
    parameter holds a boolean and every required parameter is bound. *)
Theorem kw_parse_bindings :
  forall f raw args d,
    let w := FunctionWrapper f in
    kw_parse w raw = Ok (args, d) ->
    args = [] /\
    (forall k, dict_mem k d = true -> In k (arg_names w)) /\
    (forall b, In b (booleans w) -> exists bv, dict_get b d = Some (VBool bv)) /\
    (forall r, In r (required w) -> dict_mem r d = true).
Proof.
  intros f raw args d w H. unfold kw_parse in H.
  destruct (kw_loop w (short_to_name w) (bools_false w) (last_opt (booleans w)) raw) as [a|e] eqn:E;
    cbn [bind] in H; [|discriminate].
  destruct (filter (fun x => negb (dict_mem x a)) (required w)) as [|x l] eqn:F;
    [|discriminate].
  injection H as <- <-. split; [reflexivity|].
  assert (Hinv := kw_loop_inv w (short_to_name w) (short_to_name_In w)
                    (fun b Hb => proj2 (proj1 (wrapper_booleans_In f b) Hb))
                    (List.length raw) raw (le_n _) (bools_false w) (last_opt (booleans w)) a).
  destruct Hinv as [Hk Hb].
  - intros k. unfold dict_mem. rewrite bools_false_get.
    destruct (mem k (booleans w)) eqn:M; [|discriminate]. intros _.
    apply mem_In in M. unfold w in M. apply wrapper_booleans_In in M. tauto.
  - intros b Hb. exists false. rewrite bools_false_get.
    apply mem_In in Hb. rewrite Hb. reflexivity.
  - exact E.
  - split; [exact Hk|]. split; [exact Hb|].
    intros r Hr. apply (filter_nil_false _ _ F) in Hr.
    destruct (dict_mem r a); [reflexivity|discriminate].
Qed.

Lemma kw_parse_bindings_witness :
  [] = @nil value /\
  (forall k, dict_mem k [("nudge", VBool true); ("happy", VBool true);
                         ("shaft", VStr "dirt"); ("brightness", VInt 120)] = true ->
             In k (arg_names (FunctionWrapper bigfun))) /\
  (forall b, In b (booleans (FunctionWrapper bigfun)) ->
             exists bv, dict_get b [("nudge", VBool true); ("happy", VBool true);
                                    ("shaft", VStr "dirt"); ("brightness", VInt 120)]
                        = Some (VBool bv)) /\
  (forall r, In r (required (FunctionWrapper bigfun)) ->
             dict_mem r [("nudge", VBool true); ("happy", VBool true);
                         ("shaft", VStr "dirt"); ("brightness", VInt 120)] = true).
Proof.
  apply (kw_parse_bindings bigfun ["-nh"; "-s"; "dirt"; "-b"; "120"]).
  reflexivity.
Defined.








(** ** [MixedFunction.parse]: positional tokens *)

Lemma combine_nil_r {A B} (l : list A) : combine l (@nil B) = [].
Proof. destruct l; reflexivity. Qed.

Lemma combine_app_r {A B} (l : list A) : forall (r e : list B),
  List.length l <= List.length r -> combine l (app r e) = combine l r.
Proof.
  induction l as [|x l IH]; intros r e H; [reflexivity|].
  destruct r as [|y r]; simpl in H; [lia|]. simpl. f_equal. apply IH. lia.
Qed.

(** X13: Hybrid mode checks no arity.  Without a leading option (no token, a
    first token without hyphen, a lone "-", or everything after "--") the
    tokens are zipped with the parameters in declaration order: tokens beyond
    the parameters are silently dropped, and parameters without a token are
    left unbound, without error. *)
Theorem mixed_parse_positional :
  forall w,
    mixed_parse w [] = Ok ([], []) /\
    (forall rest, mixed_parse w ("--" :: rest)
       = (args <- cast_each w (combine (arg_names w) rest) ;; Ok (args, []))) /\
    (forall t rest, startswith t "-" = false \/ t = "-" ->
       mixed_parse w (t :: rest)
       = (args <- cast_each w (combine (arg_names w) (t :: rest)) ;; Ok (args, []))) /\
    (forall rest extra, List.length (arg_names w) <= List.length rest ->
       mixed_parse w ("--" :: app rest extra) = mixed_parse w ("--" :: rest)).
Proof.
  intros w. split; [|split; [|split]].
  - unfold mixed_parse. simpl. rewrite combine_nil_r. reflexivity.
  - intros rest. reflexivity.
  - intros t rest [H| ->]; [|reflexivity].
    unfold mixed_parse, Getopt.getopt. cbn [Getopt.getopt_loop]. rewrite H. reflexivity.
  - intros rest extra H. unfold mixed_parse. cbn.
    rewrite combine_app_r by exact H. reflexivity.
Qed.

Lemma mixed_parse_positional_witness :
  mixed_parse (FunctionWrapper roll_dice) ["6"] = Ok ([VInt 6], []) /\
  mixed_parse (FunctionWrapper roll_dice) ["--"; "6"; "2"; "-r"]
  = mixed_parse (FunctionWrapper roll_dice) ["--"; "6"; "2"].
Proof.
  split.
  - rewrite (proj1 (proj2 (proj2 (mixed_parse_positional (FunctionWrapper roll_dice))))
               "6" [] (or_introl eq_refl)).
    reflexivity.
  - apply (proj2 (proj2 (proj2 (mixed_parse_positional (FunctionWrapper roll_dice))))
             ["6"; "2"] ["-r"]).
    simpl. lia.
Defined.

(** ** [MixedFunction.parse]: boolean flags *)

Lemma chars_app (a b : string) :
  list_ascii_of_string (a ++ b) = app (list_ascii_of_string a) (list_ascii_of_string b).
Proof. induction a as [|c a IH]; simpl; [reflexivity|]. rewrite IH. reflexivity. Qed.

Lemma str_app_cancel_r (a b s : string) : a ++ s = b ++ s -> a = b.
Proof.
  intros H. apply (f_equal list_ascii_of_string) in H. rewrite !chars_app in H.
  apply app_inv_tail in H.
  rewrite <- (string_of_list_ascii_of_string a), <- (string_of_list_ascii_of_string b), H.
  reflexivity.
Qed.

Lemma chars_concat_In (l : list string) x c :
  In x l -> In c (list_ascii_of_string x) ->
  In c (list_ascii_of_string (String.concat "" l)).
Proof.
  induction l as [|y [|z r] IH]; intros Hx Hc; [contradiction| |].
  - destruct Hx as [<-|[]]. exact Hc.
  - change (String.concat "" (y :: z :: r)) with (y ++ "" ++ String.concat "" (z :: r)).
    rewrite chars_app. apply in_or_app. destruct Hx as [<-|Hx]; [left; exact Hc|].
    right. apply IH; assumption.
Qed.

Lemma concat_chars_In (l : list string) c :
  In c (list_ascii_of_string (String.concat "" l)) ->
  exists x, In x l /\ In c (list_ascii_of_string x).
Proof.
  induction l as [|y [|z r] IH]; intros Hc; [contradiction| |].
  - exists y. split; [left; reflexivity|exact Hc].
  - change (String.concat "" (y :: z :: r)) with (y ++ "" ++ String.concat "" (z :: r)) in Hc.
    rewrite chars_app in Hc. apply in_app_or in Hc as [Hc|Hc].
    + exists y. split; [left; reflexivity|exact Hc].
    + destruct (IH Hc) as [x [Hx Hcx]]. exists x. split; [right; exact Hx|exact Hcx].
Qed.

Lemma identifier_chars s :
  is_identifier s = true ->
  (exists c t, s = String c t) /\
  (forall d, In d (list_ascii_of_string s) -> is_ident_char d = true).
Proof.
  unfold is_identifier. intros H. apply andb_prop in H as [H1 H2]. split.
  - destruct s as [|c t]; [discriminate|]. eauto.
  - intros d Hd. rewrite forallb_forall in H2. apply H2. exact Hd.
Qed.

Lemma cast_of_In f k c :
  cast_of (FunctionWrapper f) k = Ok c -> In k (arg_names (FunctionWrapper f)).
Proof.
  unfold cast_of, FunctionWrapper. cbn [casts arg_names].
  induction (fn_params f) as [|[n a] r IH]; simpl; [discriminate|].
  destruct (str_eqb_spec k n) as [->|_]; [left; reflexivity|].
  intros H. right. apply IH. exact H.
Qed.

Lemma short_to_name_first w k n :
  dict_get k (short_to_name w) = Some n -> first_char n = k /\ In n (arg_names w).
Proof.
  unfold short_to_name. rewrite short_to_name_fold.
  destruct (last_opt _) as [m|] eqn:E; [|discriminate].
  intros H. injection H as <-. apply last_opt_In, filter_In in E as [Hin Heq].
  apply String.eqb_eq in Heq. auto.
Qed.

(** In [shortopts], a character of the leading colon-free part, followed by a
    part that does not start with a colon, takes no argument. *)
Lemma short_has_arg_app_false c s X :
  In c (list_ascii_of_string s) ->
  (forall d, In d (list_ascii_of_string s) -> d <> ":"%char) ->
  (forall d X', X = String d X' -> d <> ":"%char) ->
  Getopt.short_has_arg c (s ++ X) = Ok false.
Proof.
  induction s as [|d r IH]; intros Hc Hs HX; [contradiction|].
  cbn [append Getopt.short_has_arg].
  assert (Hd : d <> ":"%char) by (apply Hs; left; reflexivity).
  destruct (Ascii.eqb_spec c d) as [->|Hne].
  - destruct (Ascii.eqb_spec d ":"%char) as [E|_]; [contradiction|]. simpl.
    f_equal. unfold startswith.
    destruct r as [|e r'].
    + destruct X as [|e X']; [reflexivity|]. cbn [append prefix].
      destruct (ascii_dec ":" e) as [E|_]; [|reflexivity].
      exfalso. apply (HX e X'); auto.
    + cbn [append prefix]. destruct (ascii_dec ":" e) as [E|_]; [|reflexivity].
      exfalso. apply (Hs e); [right; left; reflexivity|auto].
  - simpl. apply IH; [destruct Hc as [E|Hc]; [congruence|exact Hc]| |exact HX].
    intros e He. apply Hs. right. exact He.
Qed.

Lemma In_firstn_In {A} (x : A) n l : In x (firstn n l) -> In x l.
Proof.
  revert n. induction l as [|y r IH]; intros [|n]; simpl; try tauto.
  intros [<-|H]; [left; reflexivity|right; eapply IH; exact H].
Qed.

Lemma ident_not_colon d : is_ident_char d = true -> d <> ":"%char.
Proof. intros H ->. discriminate H. Qed.

Lemma ident_not_eq d : is_ident_char d = true -> d <> "="%char.
Proof. intros H ->. discriminate H. Qed.

Lemma ident_not_dash d : is_ident_char d = true -> d <> "-"%char.
Proof. intros H ->. discriminate H. Qed.

(** With identifier names, every letter of a boolean parameter's name takes
    no argument in [shorts_str]. *)
Lemma mixed_shorts_boolean f b c :
  let w := FunctionWrapper f in
  forallb is_identifier (arg_names w) = true ->
  In b (booleans w) -> In c (list_ascii_of_string b) ->
  Getopt.short_has_arg c (mixed_shorts w) = Ok false.
Proof.
  intros w Hid Hb Hc. rewrite forallb_forall in Hid.
  assert (HbN : forall x, In x (booleans w) -> In x (arg_names w)).
  { intros x Hx. apply (wrapper_booleans_In f x) in Hx. tauto. }
  unfold mixed_shorts. apply short_has_arg_app_false.
  - apply (chars_concat_In _ b); [apply in_map_iff; eauto|exact Hc].
  - intros d Hd. apply concat_chars_In in Hd as [x [Hx Hd]].
    apply in_map_iff in Hx as [y [<- Hy]].
    apply ident_not_colon. apply (proj2 (identifier_chars y (Hid y (HbN y Hy)))). exact Hd.
  - intros d X' HX.
    destruct (required w) as [|r rs] eqn:R; [discriminate HX|].
    assert (Hr : In r (arg_names w)).
    { assert (Hin : In r (required w)) by (rewrite R; left; reflexivity).
      unfold w in Hin. apply wrapper_required_In in Hin as [Hin _].
      apply In_firstn_In in Hin. exact Hin. }
    destruct (identifier_chars r (Hid r Hr)) as [[e [r' ->]] Hchars].
    assert (He : is_ident_char e = true) by (apply Hchars; left; reflexivity).
    cbn [map] in HX. unfold join in HX.
    destruct (map (fun name => first_char name ++ ":") rs) as [|z zs];
      cbn [String.concat first_char substring append] in HX;
      injection HX as <- _; apply ident_not_colon; exact He.
Qed.

Lemma length_chars (s : string) : String.length s = List.length (list_ascii_of_string s).
Proof. induction s as [|c s IH]; simpl; [reflexivity|]. rewrite IH. reflexivity. Qed.

Lemma substring0_chars n s :
  list_ascii_of_string (substring 0 n s) = firstn n (list_ascii_of_string s).
Proof.
  revert n. induction s as [|c s IH]; intros [|n]; simpl; try reflexivity.
  rewrite IH. reflexivity.
Qed.

Lemma chars_inj (a b : string) : list_ascii_of_string a = list_ascii_of_string b -> a = b.
Proof.
  intros H. rewrite <- (string_of_list_ascii_of_string a), <- (string_of_list_ascii_of_string b), H.
  reflexivity.
Qed.

Lemma drop_last_eq u : Getopt.ends_with_eq u = true -> Getopt.drop_last u ++ "=" = u.
Proof.
  unfold Getopt.ends_with_eq, Getopt.drop_last. intros H.
  destruct (rev (list_ascii_of_string u)) as [|c t] eqn:R; [discriminate|].
  apply Ascii.eqb_eq in H. subst c.
  assert (Hu : list_ascii_of_string u = app (rev t) ["="%char]).
  { rewrite <- (rev_involutive (list_ascii_of_string u)), R. reflexivity. }
  apply chars_inj.
  rewrite chars_app, substring0_chars, length_chars, Hu, length_app.
  cbn [List.length]. rewrite Nat.add_sub, firstn_app, Nat.sub_diag, firstn_all.
  cbn [firstn]. rewrite app_nil_r. reflexivity.
Qed.

Lemma long_has_args_spec opt lo has nm :
  Getopt.long_has_args opt lo = Ok (has, nm) ->
  (has = false -> In nm lo) /\ (has = true -> In (nm ++ "=") lo).
Proof.
  unfold Getopt.long_has_args. cbv zeta.
  assert (Hp : forall x, In x (filter (fun o => startswith o opt) lo) -> In x lo)
    by (intros x Hx; apply filter_In in Hx; tauto).
  destruct (filter (fun o => startswith o opt) lo) as [|u [|u2 r]] eqn:P;
    [discriminate| |].
  - destruct (mem opt [u]) eqn:M1.
    { intros H. injection H as <- <-. apply mem_In in M1.
      split; [intros _; apply Hp; exact M1|discriminate]. }
    destruct (mem (opt ++ "=") [u]) eqn:M2.
    { intros H. injection H as <- <-. apply mem_In in M2.
      split; [discriminate|intros _; apply Hp; exact M2]. }
    destruct (Getopt.ends_with_eq u) eqn:Eq.
    { intros H. injection H as <- <-. split; [discriminate|].
      intros _. rewrite drop_last_eq by exact Eq. apply Hp. left. reflexivity. }
    intros H. injection H as <- <-. split; [|discriminate].
    intros _. apply Hp. left. reflexivity.
  - destruct (mem opt (u :: u2 :: r)) eqn:M1.
    { intros H. injection H as <- <-. apply mem_In in M1.
      split; [intros _; apply Hp; exact M1|discriminate]. }
    destruct (mem (opt ++ "=") (u :: u2 :: r)) eqn:M2; [|discriminate].
    intros H. injection H as <- <-. apply mem_In in M2.
    split; [discriminate|intros _; apply Hp; exact M2].
Qed.

Lemma Forall_snoc {A} (P : A -> Prop) l x : Forall P l -> P x -> Forall P (py_append l x).
Proof. intros H Hx. unfold py_append. apply Forall_app. split; [exact H|constructor; auto]. Qed.

Lemma do_shorts_entries so lo : forall optstring opts next opts' used,
  Forall (getopt_entry so lo) opts ->
  Getopt.do_shorts opts optstring so next = Ok (opts', used) ->
  Forall (getopt_entry so lo) opts'.
Proof.
  induction optstring as [|c r IH]; intros opts next opts' used Hf H;
    cbn [Getopt.do_shorts] in H.
  - injection H as <- _. exact Hf.
  - destruct (Getopt.short_has_arg c so) as [has|e] eqn:Hs; cbn [bind] in H; [|discriminate].
    destruct has.
    + assert (Hent : forall a, getopt_entry so lo ("-" ++ str1 c, a)).
      { intros a. left. exists c, true. split; [reflexivity|]. split; [exact Hs|discriminate]. }
      destruct r as [|c' r'].
      * destruct next as [a|]; [|discriminate]. injection H as <- _.
        apply Forall_snoc; [exact Hf|apply Hent].
      * injection H as <- _. apply Forall_snoc; [exact Hf|apply Hent].
    + eapply IH; [|exact H]. apply Forall_snoc; [exact Hf|].
      left. exists c, false. split; [reflexivity|]. split; [exact Hs|reflexivity].
Qed.

Lemma do_longs_entries so lo opts opt0 next opts' used :
  Forall (getopt_entry so lo) opts ->
  Getopt.do_longs opts opt0 lo next = Ok (opts', used) ->
  Forall (getopt_entry so lo) opts'.
Proof.
  intros Hf H. unfold Getopt.do_longs in H.
  destruct (match Getopt.split_eq opt0 with
            | Some (a, b) => (a, Some b)
            | None => (opt0, None)
            end) as [opt optarg].
  destruct (Getopt.long_has_args opt lo) as [[has nm]|e] eqn:L; cbn [bind] in H; [|discriminate].
  apply long_has_args_spec in L as [L1 L2].
  destruct has.
  - assert (Hent : forall a, getopt_entry so lo ("--" ++ nm, a)).
    { intros a. right. exists nm. split; [reflexivity|]. right. apply L2. reflexivity. }
    destruct optarg as [a|].
    + injection H as <- _. apply Forall_snoc; [exact Hf|apply Hent].
    + destruct next as [a|]; [|discriminate]. injection H as <- _.
      apply Forall_snoc; [exact Hf|apply Hent].
  - destruct optarg; [discriminate|]. injection H as <- _. apply Forall_snoc; [exact Hf|].
    right. exists nm. split; [reflexivity|]. left. split; [apply L1; reflexivity|reflexivity].
Qed.

Lemma getopt_loop_entries so lo len : forall args opts opts' rest,
  List.length args <= len ->
  Forall (getopt_entry so lo) opts ->
  Getopt.getopt_loop so lo opts args = Ok (opts', rest) ->
  Forall (getopt_entry so lo) opts'.
Proof.
  induction len as [|len IH]; intros args opts opts' rest Hle Hf H;
    destruct args as [|a r]; cbn [Getopt.getopt_loop] in H.
  1,3: injection H as <- _; exact Hf.
  1: simpl in Hle; lia.
  simpl in Hle.
  destruct (startswith a "-" && negb (str_eqb a "-")).
  2:{ injection H as <- _. exact Hf. }
  destruct (str_eqb a "--").
  { injection H as <- _. exact Hf. }
  destruct (if startswith a "--" then Getopt.do_longs opts (drop 2 a) lo (hd_error r)
            else Getopt.do_shorts opts (drop 1 a) so (hd_error r))
    as [[opts1 used]|e] eqn:D; cbn [bind] in H; [|discriminate].
  assert (Hf1 : Forall (getopt_entry so lo) opts1).
  { destruct (startswith a "--").
    - eapply do_longs_entries; [exact Hf|exact D].
    - eapply do_shorts_entries; [exact Hf|exact D]. }
  destruct used.
  - destruct r as [|b r'].
    + injection H as <- _. exact Hf1.
    + eapply IH; [|exact Hf1|exact H]. simpl in Hle. lia.
  - eapply IH; [|exact Hf1|exact H]. lia.
Qed.

Lemma startswith_long (nm : string) : startswith ("--" ++ nm) "--" = true.
Proof. destruct nm; reflexivity. Qed.

Lemma drop_2_long (nm : string) : drop 2 ("--" ++ nm) = nm.
Proof. unfold drop. simpl. rewrite Nat.sub_0_r, substring_0_length. reflexivity. Qed.

Lemma mixed_opts_bool f :
  let w := FunctionWrapper f in
  forallb is_identifier (arg_names w) = true ->
  forall optlist names kw name names' kw',
  Forall (getopt_entry (mixed_shorts w) (mixed_longs w)) optlist ->
  (forall b, In b (booleans w) -> dict_get b kw = None \/ dict_get b kw = Some (VBool false)) ->
  mixed_opts w (short_to_name w) names kw name optlist = Ok (names', kw') ->
  forall b, In b (booleans w) -> dict_get b kw' = None \/ dict_get b kw' = Some (VBool false).
Proof.
  intros w Hid. assert (Hid' := Hid). rewrite forallb_forall in Hid'.
  induction optlist as [|[opt val] r IH]; intros names kw name names' kw' Hf Hkw H;
    cbn [mixed_opts] in H.
  - injection H as _ <-. exact Hkw.
  - inversion Hf as [|? ? Hent Hr]; subst.
    assert (Hstep : forall n c v, cast_of w n = Ok c -> apply_cast c val = Ok v ->
              (In n (booleans w) -> val = "") ->
              forall b, In b (booleans w) ->
              dict_get b (dict_set n v kw) = None \/
              dict_get b (dict_set n v kw) = Some (VBool false)).
    { intros n c v Hc Hv Hval b Hb. rewrite dict_get_set.
      destruct (str_eqb_spec b n) as [->|_]; [|apply Hkw; exact Hb].
      right. specialize (Hval Hb). subst val.
      apply (wrapper_booleans_In f n) in Hb as [_ Hb']. fold w in Hb'.
      rewrite Hb' in Hc. injection Hc as <-. injection Hv as <-. reflexivity. }
    destruct Hent as [[c [has [Hopt [Hs Hhas]]]]|[nm [Hopt Hlong]]];
      cbn [fst snd] in *; subst opt.
    + destruct (ascii_dec c "-") as [->|Hc].
      * (* the option "--": its name "" is no parameter *)
        cbn [startswith prefix] in H. simpl in H.
        change (drop 2 (String "-" (str1 "-"))) with "" in H.
        destruct (cast_of w "") as [c0|e] eqn:Ec; cbn [bind] in H; [|discriminate].
        apply cast_of_In in Ec. apply Hid' in Ec. discriminate Ec.
      * assert (Hl : startswith (String "-" (str1 c)) "--" = false)
          by (apply short_token_not_long; exact Hc).
        rewrite Hl in H.
        change (startswith (String "-" (str1 c)) "-") with true in H.
        change (char_at 1 (String "-" (str1 c))) with (str1 c) in H.
        destruct (dict_get (str1 c) (short_to_name w)) as [n|] eqn:G; [|discriminate].
        cbn [bind] in H.
        destruct (cast_of w n) as [c0|e] eqn:Ec; cbn [bind] in H; [|discriminate].
        destruct (apply_cast c0 val) as [v|e] eqn:Ev; cbn [bind] in H; [|discriminate].
        destruct (remove_first n names) as [names1|]; [|discriminate].
        eapply IH; [exact Hr| |exact H].
        apply (Hstep n c0 v Ec Ev). intros Hb. apply Hhas.
        apply short_to_name_first in G as [Hfirst Hn].
        destruct (identifier_chars n (Hid' n Hn)) as [[e [t ->]] _].
        injection Hfirst as -> _.
        assert (Hs' := mixed_shorts_boolean f (String c t) c Hid Hb (or_introl eq_refl)).
        fold w in Hs'. rewrite Hs in Hs'. injection Hs' as ->. reflexivity.
    + rewrite startswith_long, drop_2_long in H. cbn [bind] in H.
      destruct (cast_of w nm) as [c0|e] eqn:Ec; cbn [bind] in H; [|discriminate].
      destruct (apply_cast c0 val) as [v|e] eqn:Ev; cbn [bind] in H; [|discriminate].
      destruct (remove_first nm names) as [names1|]; [|discriminate].
      eapply IH; [exact Hr| |exact H].
      apply (Hstep nm c0 v Ec Ev). intros Hb.
      destruct Hlong as [[_ Hv]|Hin]; [exact Hv|exfalso].
      unfold mixed_longs in Hin. apply in_app_or in Hin as [Hin|Hin].
      * assert (Hn : In (nm ++ "=") (arg_names w))
          by (apply (wrapper_booleans_In f) in Hin; tauto).
        apply Hid', identifier_chars in Hn as [_ Hch].
        apply (ident_not_eq "="%char); [apply Hch|reflexivity].
        rewrite chars_app. apply in_or_app. right. left. reflexivity.
      * apply in_map_iff in Hin as [r0 [Heq Hr0]].
        apply str_app_cancel_r in Heq. subst r0.
        unfold w in Hr0. apply wrapper_required_In in Hr0 as [_ Hnb]. exact (Hnb Hb).
Qed.

(** X14: in Hybrid mode a boolean parameter set by an option ([-n], [--nudge] or
    a unique prefix of it) is bound to [False], never [True]: [getopt] gives a
    no-argument option the value "" and [bool("")] is [False].  This holds
    for every token list when the parameter names are identifiers. *)
Theorem mixed_boolean_flags_false :
  forall f raw args kw,
    let w := FunctionWrapper f in
    forallb is_identifier (arg_names w) = true ->
    mixed_parse w raw = Ok (args, kw) ->
    forall b, In b (booleans w) ->
    dict_get b kw = None \/ dict_get b kw = Some (VBool false).
Proof.
  intros f raw args kw w Hid H. unfold mixed_parse in H.
  destruct (Getopt.getopt raw (mixed_shorts w) (mixed_longs w)) as [[optlist unc]|e] eqn:G;
    cbn [bind] in H; [|discriminate].
  destruct (mixed_opts w (short_to_name w) (arg_names w) [] None optlist)
    as [[names' kw1]|e] eqn:M; cbn [bind] in H; [|discriminate].
  destruct (cast_each w (combine names' unc)) as [al|e]; cbn [bind] in H; [|discriminate].
  injection H as <- <-.
  apply (mixed_opts_bool f Hid optlist (arg_names w) [] None names' kw1); [| |exact M].
  - unfold Getopt.getopt in G.
    eapply (getopt_loop_entries _ _ (List.length raw)); [apply le_n|constructor|exact G].
  - intros b _. left. reflexivity.
Qed.

Lemma mixed_boolean_flags_false_witness :
  mixed_parse (FunctionWrapper bigfun) ["-n"; "--happy"; "5"]
    = Ok ([VInt 5], [("nudge", VBool false); ("happy", VBool false)]) /\
  (dict_get "nudge" [("nudge", VBool false); ("happy", VBool false)] = None \/
   dict_get "nudge" [("nudge", VBool false); ("happy", VBool false)] = Some (VBool false)).
Proof.
  split; [reflexivity|].
  apply (mixed_boolean_flags_false bigfun ["-n"; "--happy"; "5"] [VInt 5]
           [("nudge", VBool false); ("happy", VBool false)]);
    [reflexivity|reflexivity|simpl; auto].
Defined.

Lemma str_eqb_short_dash (c : ascii) : c <> "-"%char -> str_eqb (String "-" (str1 c)) "--" = false.
Proof.
  intros H. unfold str_eqb. cbn [String.eqb str1]. rewrite Ascii.eqb_refl. simpl.
  destruct (Ascii.eqb_spec c "-"); [contradiction|reflexivity].
Qed.

Lemma do_shorts_prefix so : forall str opts next opts' used,
  Getopt.do_shorts opts str so next = Ok (opts', used) -> exists tl, opts' = app opts tl.
Proof.
  induction str as [|a r IH]; intros opts next opts' used H; cbn [Getopt.do_shorts] in H.
  - injection H as <- _. exists []. symmetry. apply app_nil_r.
  - destruct (Getopt.short_has_arg a so) as [has|e]; cbn [bind] in H; [|discriminate].
    destruct has.
    + destruct r as [|b r'].
      * destruct next; [|discriminate]. injection H as <- _. eexists. reflexivity.
      * injection H as <- _. eexists. reflexivity.
    + destruct (IH _ _ _ _ H) as [tl ->]. exists (app [("-" ++ str1 a, "")] tl).
      unfold py_append. rewrite app_assoc. reflexivity.
Qed.

Lemma do_longs_prefix opts opt0 lo next opts' used :
  Getopt.do_longs opts opt0 lo next = Ok (opts', used) -> exists tl, opts' = app opts tl.
Proof.
  unfold Getopt.do_longs.
  destruct (Getopt.split_eq opt0) as [[a b]|]; cbn beta iota zeta;
    [destruct (Getopt.long_has_args a lo) as [[has o]|e]
    |destruct (Getopt.long_has_args opt0 lo) as [[has o]|e]]; cbn [bind]; try discriminate;
    destruct has; try destruct next; intros H; try discriminate;
    injection H as <- _; eexists; reflexivity.
Qed.

(** [getopt] only appends to the option list it is given. *)
Lemma getopt_loop_prefix so lo len : forall args opts opts' rest,
  List.length args <= len ->
  Getopt.getopt_loop so lo opts args = Ok (opts', rest) ->
  exists tl, opts' = app opts tl.
Proof.
  induction len as [|len IH]; intros args opts opts' rest Hle H;
    destruct args as [|a r]; cbn [Getopt.getopt_loop] in H.
  1,3: injection H as <- _; exists []; symmetry; apply app_nil_r.
  1: simpl in Hle; lia.
  simpl in Hle.
  destruct (startswith a "-" && negb (str_eqb a "-")).
  2:{ injection H as <- _. exists []. symmetry. apply app_nil_r. }
  destruct (str_eqb a "--").
  { injection H as <- _. exists []. symmetry. apply app_nil_r. }
  destruct (if startswith a "--" then Getopt.do_longs opts (drop 2 a) lo (hd_error r)
            else Getopt.do_shorts opts (drop 1 a) so (hd_error r))
    as [[opts1 used]|e] eqn:D; cbn [bind] in H; [|discriminate].
  assert (H1 : exists tl, opts1 = app opts tl).
  { destruct (startswith a "--").
    - eapply do_longs_prefix. exact D.
    - eapply do_shorts_prefix. exact D. }
  destruct H1 as [tl1 ->].
  assert (Hk : forall args', List.length args' <= len ->
                 Getopt.getopt_loop so lo (app opts tl1) args' = Ok (opts', rest) ->
                 exists tl, opts' = app opts tl).
  { intros args' Hl' H'. destruct (IH _ _ _ _ Hl' H') as [tl2 ->].
    exists (app tl1 tl2). symmetry. apply app_assoc. }
  destruct used.
  - destruct r as [|b r'].
    + injection H as <- _. exists tl1. reflexivity.
    + eapply Hk; [|exact H]. simpl in Hle. lia.
  - eapply Hk; [|exact H]. lia.
Qed.

(** A token [-c...] whose letter [c] is a short option without argument puts
    [("-c", "")] first in the option list of [getopt]. *)
Lemma getopt_first_short so lo c s rest optlist args :
  c <> "-"%char -> Getopt.short_has_arg c so = Ok false ->
  Getopt.getopt (String "-" (String c s) :: rest) so lo = Ok (optlist, args) ->
  exists tl, optlist = ("-" ++ str1 c, "") :: tl.
Proof.
  intros Hdash Hs H. unfold Getopt.getopt in H. cbn [Getopt.getopt_loop] in H.
  change (startswith (String "-" (String c s)) "-" && negb (str_eqb (String "-" (String c s)) "-"))
    with true in H.
  assert (Hne : str_eqb (String "-" (String c s)) "--" = false).
  { destruct (str_eqb_spec (String "-" (String c s)) "--") as [E|_]; [|reflexivity].
    injection E as E _. contradiction. }
  rewrite Hne, (short_token_not_long c s Hdash), drop_1_cons in H.
  cbn [Getopt.do_shorts] in H. rewrite Hs in H. cbn [bind] in H.
  destruct (Getopt.do_shorts (py_append [] ("-" ++ str1 c, "")) s so (hd_error rest))
    as [[opts1 used]|e] eqn:D; cbn [bind] in H; [|discriminate].
  destruct (do_shorts_prefix so _ _ _ _ _ D) as [tl1 ->].
  destruct used.
  - destruct rest as [|x r'].
    + injection H as <- _. exists tl1. reflexivity.
    + destruct (getopt_loop_prefix so lo _ r' _ _ _ (le_n _) H) as [tl2 ->].
      exists (app tl1 tl2). reflexivity.
  - destruct (getopt_loop_prefix so lo _ rest _ _ _ (le_n _) H) as [tl2 ->].
    exists (app tl1 tl2). reflexivity.
Qed.

(** X15: in Hybrid mode every letter of a boolean parameter's name is a short
    option without argument for [getopt] ([shorts_str] joins the whole
    names).  A token [-c...] whose first letter [c] is such a letter but
    starts no parameter name makes the parse fail: with [getopt]'s error if
    [getopt] rejects a later option, and otherwise with [KeyError] from
    [short_to_name], whatever follows the token (more letters in the
    cluster, further options or positional tokens).  With the command
    registered alone, [run] does not catch that [KeyError]. *)
Theorem mixed_boolean_letters :
  forall set_iter name prog f b c s rest,
    let w := FunctionWrapper f in
    forallb is_identifier (arg_names w) = true ->
    In b (booleans w) -> In c (list_ascii_of_string b) ->
    Getopt.short_has_arg c (mixed_shorts w) = Ok false /\
    (dict_get (str1 c) (short_to_name w) = None ->
     mixed_parse w (String "-" (String c s) :: rest)
     = (r <- Getopt.getopt (String "-" (String c s) :: rest) (mixed_shorts w) (mixed_longs w) ;;
        Err (KeyError (str1 c))) /\
     (mem (String "-" (String c s)) HELP_SET = false ->
      forall r, Getopt.getopt (String "-" (String c s) :: rest) (mixed_shorts w) (mixed_longs w)
                = Ok r ->
      run set_iter [(name, mk_entry KMixed w)] (prog :: String "-" (String c s) :: rest)
      = ([], Raised (KeyError (str1 c))))).
Proof.
  intros set_iter name prog f b c s rest w Hid Hb Hc.
  assert (Hs := mixed_shorts_boolean f b c Hid Hb Hc). fold w in Hs.
  split; [exact Hs|]. intros Hstn.
  assert (Hdash : c <> "-"%char).
  { apply ident_not_dash. assert (Hid' := Hid). rewrite forallb_forall in Hid'.
    apply (identifier_chars b); [apply Hid'; apply (wrapper_booleans_In f b) in Hb; tauto|exact Hc]. }
  assert (Hmp : mixed_parse w (String "-" (String c s) :: rest)
                = (r <- Getopt.getopt (String "-" (String c s) :: rest) (mixed_shorts w) (mixed_longs w) ;;
                   Err (KeyError (str1 c)))).
  { unfold mixed_parse.
    destruct (Getopt.getopt (String "-" (String c s) :: rest) (mixed_shorts w) (mixed_longs w))
      as [[optlist args]|e] eqn:G; cbn [bind]; [|reflexivity].
    destruct (getopt_first_short _ _ c s rest optlist args Hdash Hs G) as [tl ->].
    cbn [mixed_opts]. change ("-" ++ str1 c) with (String "-" (str1 c)).
    assert (Hl : startswith (String "-" (str1 c)) "--" = false)
      by (apply short_token_not_long; exact Hdash).
    rewrite Hl. change (char_at 1 (String "-" (str1 c))) with (str1 c).
    change (startswith (String "-" (str1 c)) "-") with true. cbn iota.
    rewrite Hstn. reflexivity. }
  split; [exact Hmp|].
  intros Hhelp r G.
  assert (Hp : parse (mk_entry KMixed w) (String "-" (String c s) :: rest) = Err (KeyError (str1 c))).
  { unfold parse. cbn [e_kind e_wrapper]. rewrite Hmp, G. reflexivity. }
  unfold run, parse_args. rewrite Hhelp, Hp. reflexivity.
Qed.

Lemma mixed_boolean_letters_witness :
  mixed_parse (FunctionWrapper bigfun) ["-un"; "5"] = Err (KeyError "u") /\
  run in_order [("bigfun", mk_entry KMixed (FunctionWrapper bigfun))] ["prog"; "-un"; "5"]
  = ([], Raised (KeyError "u")).
Proof.
  destruct (mixed_boolean_letters in_order "bigfun" "prog" bigfun "nudge" "u"%char "n" ["5"]
              eq_refl ltac:(simpl; auto) ltac:(simpl; auto)) as [_ H].
  destruct (H eq_refl) as [Hm Hr]. split.
  - rewrite Hm. reflexivity.
  - exact (Hr eq_refl ([("-u", ""); ("-n", "")], ["5"]) eq_refl).
Defined.

(** ** [indent] and the usage text *)

Lemma chars_of_list (l : list ascii) : list_ascii_of_string (string_of_list_ascii l) = l.
Proof. apply list_ascii_of_string_of_list_ascii. Qed.

Lemma splitlines_aux_nobreak_end cur l :
  Forall (fun c => is_line_break c = false) l ->
  app (rev cur) l <> [] ->
  splitlines_aux cur l = [string_of_list_ascii (app (rev cur) l)].
Proof.
  revert cur. induction l as [|d l IH]; intros cur Hl Hne.
  - rewrite app_nil_r in *. destruct cur as [|x cur]; [contradiction|reflexivity].
  - inversion Hl as [|? ? Hd Hl']; subst. cbn [splitlines_aux]. rewrite Hd.
    rewrite IH by (try exact Hl'; simpl; rewrite <- app_assoc; exact Hne).
    simpl. rewrite <- app_assoc. reflexivity.
Qed.

Lemma splitlines_aux_nobreak_nl cur l rest :
  Forall (fun c => is_line_break c = false) l ->
  splitlines_aux cur (app l (ascii_of_nat 10 :: rest))
  = string_of_list_ascii (app (rev cur) l) :: splitlines_aux [] rest.
Proof.
  revert cur. induction l as [|d l IH]; intros cur Hl.
  - rewrite app_nil_r. reflexivity.
  - inversion Hl as [|? ? Hd Hl']; subst. cbn [app splitlines_aux]. rewrite Hd.
    rewrite IH by exact Hl'. simpl. rewrite <- app_assoc. reflexivity.
Qed.

(** [splitlines] undoes the join with newlines of non-empty lines without line
    boundaries. *)
Lemma splitlines_join ls :
  Forall (fun x => x <> "" /\ Forall (fun c => is_line_break c = false) (list_ascii_of_string x)) ls ->
  splitlines (join newline ls) = ls.
Proof.
  unfold splitlines, join. induction ls as [|x [|y r] IH]; intros H; [reflexivity| |].
  - inversion H as [|? ? [Hx Hc] _]; subst. cbn [String.concat].
    rewrite splitlines_aux_nobreak_end; [|exact Hc|].
    + simpl. rewrite string_of_list_ascii_of_string. reflexivity.
    + simpl. destruct x; [contradiction|discriminate].
  - inversion H as [|? ? [Hx Hc] Hr]; subst.
    change (String.concat newline (x :: y :: r)) with (x ++ newline ++ String.concat newline (y :: r)).
    rewrite !chars_app. change (list_ascii_of_string newline) with [ascii_of_nat 10].
    cbn [app]. rewrite splitlines_aux_nobreak_nl by exact Hc.
    simpl. rewrite string_of_list_ascii_of_string. f_equal. apply IH. exact Hr.
Qed.

Lemma splitlines_aux_nobreak : forall len l cur,
  List.length l <= len ->
  Forall (fun c => is_line_break c = false) cur ->
  Forall (fun x => Forall (fun c => is_line_break c = false) (list_ascii_of_string x))
         (splitlines_aux cur l).
Proof.
  induction len as [|len IH]; intros l cur Hlen Hcur.
  - destruct l; [|simpl in Hlen; lia]. simpl.
    destruct cur; constructor; [|constructor].
    rewrite chars_of_list. apply Forall_rev. exact Hcur.
  - destruct l as [|c r].
    + simpl. destruct cur; constructor; [|constructor].
      rewrite chars_of_list. apply Forall_rev. exact Hcur.
    + simpl in Hlen. cbn [splitlines_aux].
      assert (Hline : Forall (fun c => is_line_break c = false)
                        (list_ascii_of_string (string_of_list_ascii (rev cur))))
        by (rewrite chars_of_list; apply Forall_rev; exact Hcur).
      destruct (is_line_break c) eqn:Hc.
      * destruct (nat_of_ascii c =? 13).
        -- destruct r as [|c' r'].
           ++ constructor; [exact Hline|constructor].
           ++ destruct (nat_of_ascii c' =? 10).
              ** constructor; [exact Hline|]. apply IH; [simpl in Hlen; lia|constructor].
              ** constructor; [exact Hline|]. apply IH; [lia|constructor].
        -- constructor; [exact Hline|]. apply IH; [lia|constructor].
      * apply IH; [lia|]. constructor; [exact Hc|exact Hcur].
Qed.

Lemma lstrip_In d l : In d (lstrip_chars l) -> In d l.
Proof.
  induction l as [|c r IH]; simpl; [tauto|].
  destruct (is_space c); [intros H; right; apply IH; exact H|tauto].
Qed.

Lemma strip_chars s d : In d (list_ascii_of_string (strip s)) -> In d (list_ascii_of_string s).
Proof.
  unfold strip. rewrite chars_of_list. intros H.
  apply in_rev, lstrip_In, in_rev, lstrip_In in H. exact H.
Qed.

Lemma repeat_tab_chars n :
  Forall (fun c => is_line_break c = false) (list_ascii_of_string (repeat_str tab n)).
Proof.
  induction n as [|n IH]; [constructor|]. cbn [repeat_str]. rewrite chars_app.
  apply Forall_app. split; [constructor; [reflexivity|constructor]|exact IH].
Qed.

Lemma splitlines_indent s n :
  1 <= n ->
  splitlines (indent s n) = map (fun ln => repeat_str tab n ++ strip ln) (splitlines s).
Proof.
  intros Hn. unfold indent. apply splitlines_join.
  assert (Hs := splitlines_aux_nobreak _ (list_ascii_of_string s) [] (le_n _) (Forall_nil _)).
  fold (splitlines s) in Hs.
  apply Forall_map. eapply Forall_impl; [|exact Hs]. intros ln Hln. split.
  - destruct n as [|k]; [lia|]. cbn [repeat_str]. discriminate.
  - rewrite chars_app. apply Forall_app. split; [apply repeat_tab_chars|].
    apply Forall_forall. intros d Hd. apply strip_chars in Hd.
    rewrite Forall_forall in Hln. apply Hln. exact Hd.
Qed.

(** X16: [indent(string, tab_count)] with at least one tab keeps the line
    structure of its argument: the lines of the result are the lines of the
    argument, each stripped and prefixed with [tab_count] tabs. *)
Theorem indent_lines :
  forall s n, 1 <= n ->
    splitlines (indent s n) = map (fun ln => repeat_str tab n ++ strip ln) (splitlines s).
Proof. intros s n Hn. exact (splitlines_indent s n Hn). Qed.

Lemma indent_lines_witness :
  splitlines (indent ("  first line" ++ newline ++ "   second") 2)
  = map (fun ln => repeat_str tab 2 ++ strip ln)
        (splitlines ("  first line" ++ newline ++ "   second")).
Proof. apply indent_lines. lia. Defined.

(** X17: the text of [get_usage] is, line by line, the signature line
    [tab name parameters] followed by each line of the stripped docstring,
    stripped and indented by two tabs; with no docstring, the signature line
    alone (the trailing newline opens no line). This holds whenever the
    signature line has no line boundary. *)
Theorem get_usage_lines :
  forall set_iter e,
    Forall (fun c => is_line_break c = false)
      (list_ascii_of_string (w_name (e_wrapper e) ++ " " ++ parameters_repr set_iter e)) ->
    splitlines (get_usage set_iter e)
    = (tab ++ w_name (e_wrapper e) ++ " " ++ parameters_repr set_iter e)
      :: match fn_doc (function (e_wrapper e)) with
         | Some doc => map (fun ln => tab ++ tab ++ strip ln) (splitlines (strip doc))
         | None => []
         end.
Proof.
  intros set_iter e Hsig. unfold get_usage, splitlines.
  set (sig := w_name (e_wrapper e) ++ " " ++ parameters_repr set_iter e).
  assert (Hc : list_ascii_of_string
                 (tab ++ w_name (e_wrapper e) ++ " " ++ parameters_repr set_iter e
                      ++ newline ++ get_doc e)
               = app (list_ascii_of_string (tab ++ sig))
                     (ascii_of_nat 10 :: list_ascii_of_string (get_doc e))).
  { unfold sig. rewrite !chars_app. change (list_ascii_of_string newline) with [ascii_of_nat 10].
    rewrite <- !app_assoc. reflexivity. }
  rewrite Hc, splitlines_aux_nobreak_nl.
  2:{ rewrite chars_app. apply Forall_app. split; [constructor; [reflexivity|constructor]|exact Hsig]. }
  cbn [rev app]. rewrite string_of_list_ascii_of_string. f_equal.
  fold (splitlines (get_doc e)). unfold get_doc.
  destruct (fn_doc (function (e_wrapper e))) as [doc|]; [|reflexivity].
  rewrite splitlines_indent by lia. reflexivity.
Qed.

Lemma get_usage_lines_witness :
  splitlines (get_usage in_order (mk_entry KMixed (FunctionWrapper bigfun)))
  = [tab ++ "bigfun -b brightness [-s shaft] [-n] [-h]"; tab ++ tab ++ "QWERTY"].
Proof.
  rewrite (get_usage_lines in_order (mk_entry KMixed (FunctionWrapper bigfun)))
    by (vm_compute; repeat constructor).
  vm_compute. reflexivity.
Defined.

(** ** C10: a repeated option in Switch mode *)
















